(** * auth0-log-extension-tools: checkpoint storage and the logs processor

    A shallow embedding of [src/Auth0Storage.js] and [src/processor.js].

    JavaScript values are an inductive type; objects are association lists
    in insertion order; promises are results (fulfilled or rejected); the
    closure variables of [run] ([retries], [lastLogDate], [logsBatch]) and
    the objects it shares with its collaborators (the stream, the handler,
    the document store, the clock) are one explicit state record. *)

From Stdlib Require Import ZArith List String Ascii Bool Lia DecimalString.
Import ListNotations.
Open Scope string_scope.
Open Scope Z_scope.
Set Warnings "-register-all".

(** ** JavaScript values *)

Module JS.

(** Numbers are the integers (counts, sizes, millisecond timestamps): a
    value holds no fraction, no NaN and no infinity, and stands for a number
    of JavaScript when it is a safe integer ([is_safe_integer]). Strings are
    sequences of UTF-8 bytes. Values hold no function: an object has data
    properties only. *)
Inductive value : Type :=
| VUndefined
| VNull
| VBool (b : bool)
| VNum (n : Z)
| VStr (s : string)
| VArr (elems : list value)
| VObj (props : list (string * value)).

(** An object: its own properties, in insertion order, one per key. *)
Definition obj : Type := list (string * value).

(** [o.k]: the property, [undefined] when the object has none. *)
Fixpoint get (o : obj) (k : string) : value :=
  match o with
  | [] => VUndefined
  | (k', v) :: rest => if String.eqb k' k then v else get rest k
  end.

(** [o.k = v]: overwrite in place, or add the key at the end. *)
Fixpoint set (o : obj) (k : string) (v : value) : obj :=
  match o with
  | [] => [(k, v)]
  | (k', v') :: rest =>
      if String.eqb k' k then (k', v) :: rest else (k', v') :: set rest k v
  end.

(** [v.k] on a value that is neither [null] nor [undefined], for a key that
    only an object can hold (no index, not [length]). *)
Definition prop (v : value) (k : string) : value :=
  match v with
  | VObj o => get o k
  | _ => VUndefined
  end.

(** ToBoolean. *)
Definition truthy (v : value) : bool :=
  match v with
  | VUndefined | VNull => false
  | VBool b => b
  | VNum n => negb (n =? 0)
  | VStr s => negb (String.eqb s EmptyString)
  | VArr _ | VObj _ => true
  end.

(** [a || b] *)
Definition or_else (a b : value) : value := if truthy a then a else b.

(** Number::toString of an integer: its decimal text. JavaScript prints
    the digits a double holds, which are these for a safe integer, and turns
    to the exponent form from 1e21 on. *)
Definition num_string (n : Z) : string := NilZero.string_of_int (Z.to_int n).

Definition join (sep : string) (l : list string) : string :=
  String.concat sep l.

(** ToString, as string concatenation with [+] applies it. *)
Fixpoint to_str (v : value) : string :=
  match v with
  | VUndefined => "undefined"
  | VNull => "null"
  | VBool true => "true"
  | VBool false => "false"
  | VNum n => num_string n
  | VStr s => s
  | VArr l =>
      join "," (map (fun x => match x with
                              | VUndefined | VNull => EmptyString
                              | _ => to_str x
                              end) l)
  | VObj _ => "[object Object]"
  end.

(** *** Numbers *)

(** [Number.isSafeInteger]: the integers a double holds exactly, which
    [num_string] prints as JavaScript does. *)
Definition is_safe_integer (n : Z) : bool := Z.abs n <=? 9007199254740991.

(** What ToNumber gives: NaN, an infinity, or the ratio [num / 10^scale],
    an integer when the scale is 0. A literal is read exactly: the rounding
    of ToNumber to a double, its overflow to an infinity and its underflow
    to zero are not modelled. *)
Inductive number : Type :=
| NaN
| Infinity (negative : bool)
| Ratio (num : Z) (scale : nat).

(** One white space or line terminator at the head of a string (StrWhiteSpaceChar,
    in UTF-8), dropped. *)
Definition skip_blank (s : string) : option string :=
  match s with
  | EmptyString => None
  | String a r1 =>
      let x := N_of_ascii a in
      if ((9 <=? x) && (x <=? 13) || (x =? 32))%N then Some r1
      else
        match r1 with
        | EmptyString => None
        | String b r2 =>
            let y := N_of_ascii b in
            if ((x =? 194) && (y =? 160))%N then Some r2
            else
              match r2 with
              | EmptyString => None
              | String c r3 =>
                  let z := N_of_ascii c in
                  if ((x =? 225) && (y =? 154) && (z =? 128)
                      || (x =? 226) && (y =? 128)
                         && ((128 <=? z) && (z <=? 138) || (z =? 168)
                             || (z =? 169) || (z =? 175))
                      || (x =? 226) && (y =? 129) && (z =? 159)
                      || (x =? 227) && (y =? 128) && (z =? 128)
                      || (x =? 239) && (y =? 187) && (z =? 191))%N
                  then Some r3 else None
              end
        end
  end.

Fixpoint skip_blanks (fuel : nat) (s : string) : string :=
  match fuel with
  | O => s
  | S fuel' =>
      match skip_blank s with
      | Some rest => skip_blanks fuel' rest
      | None => s
      end
  end.

Definition all_blank (s : string) : bool :=
  String.eqb (skip_blanks (String.length s) s) EmptyString.

(** The value of a digit in a base up to 16. *)
Definition digit_of (base : Z) (c : ascii) : option Z :=
  let n := Z.of_N (N_of_ascii c) in
  let d := if (48 <=? n) && (n <=? 57) then n - 48
           else if (97 <=? n) && (n <=? 102) then n - 87
           else if (65 <=? n) && (n <=? 70) then n - 55
           else 16 in
  if d <? base then Some d else None.

(** The digits at the head of a string: their value after [acc], how many
    they are, and the rest of the string. *)
Fixpoint read_digits (base : Z) (s : string) (acc : Z) (len : nat)
  : Z * nat * string :=
  match s with
  | EmptyString => (acc, len, s)
  | String c rest =>
      match digit_of base c with
      | Some d => read_digits base rest (base * acc + d) (S len)
      | None => (acc, len, s)
      end
  end.

(** [0x], [0o] and [0b] literals: digits of the base and nothing else but
    blanks after them. *)
Definition read_based (base : Z) (s : string) : number :=
  match read_digits base s 0 O with
  | (_, O, _) => NaN
  | (n, _, rest) => if all_blank rest then Ratio n O else NaN
  end.

(** An exponent part, or nothing, and then blanks only: the exponent. *)
Definition read_exponent (s : string) : option Z :=
  match s with
  | String e rest =>
      if (Ascii.eqb e "e" || Ascii.eqb e "E")%char then
        let (negative, rest) :=
          match rest with
          | String sign rest' =>
              if Ascii.eqb sign "-" then (true, rest')
              else if Ascii.eqb sign "+" then (false, rest')
              else (false, rest)
          | EmptyString => (false, rest)
          end in
        match read_digits 10 rest 0 O with
        | (_, O, _) => None
        | (x, _, rest) =>
            if all_blank rest then Some (if negative then - x else x) else None
        end
      else if all_blank s then Some 0 else None
  | EmptyString => Some 0
  end.

(** StrUnsignedDecimalLiteral, Infinity apart, and then blanks only. *)
Definition read_decimal (negative : bool) (s : string) : number :=
  let '(whole, whole_len, rest) := read_digits 10 s 0 O in
  let '(mantissa, fraction_len, rest) :=
    match rest with
    | String dot rest' =>
        if Ascii.eqb dot "." then read_digits 10 rest' whole O
        else (whole, O, rest)
    | EmptyString => (whole, O, rest)
    end in
  match (whole_len + fraction_len)%nat with
  | O => NaN
  | _ =>
      match read_exponent rest with
      | None => NaN
      | Some x =>
          let m := if negative then - mantissa else mantissa in
          let shift := x - Z.of_nat fraction_len in
          if 0 <=? shift then Ratio (m * 10 ^ shift) O
          else Ratio m (Z.to_nat (- shift))
      end
  end.

Definition strip_prefix (p s : string) : option string :=
  if String.prefix p s
  then Some (String.substring (String.length p)
                              (String.length s - String.length p) s)
  else None.

Definition read_unsigned (negative : bool) (s : string) : number :=
  match strip_prefix "Infinity" s with
  | Some rest => if all_blank rest then Infinity negative else NaN
  | None => read_decimal negative s
  end.

(** StringToNumber: blanks around a numeric literal, or around nothing,
    which is 0. *)
Definition string_to_number (s : string) : number :=
  let s := skip_blanks (String.length s) s in
  match s with
  | EmptyString => Ratio 0 O
  | String c rest =>
      if Ascii.eqb c "-" then read_unsigned true rest
      else if Ascii.eqb c "+" then read_unsigned false rest
      else if Ascii.eqb c "0" then
        match rest with
        | String b digits =>
            if (Ascii.eqb b "x" || Ascii.eqb b "X")%char then read_based 16 digits
            else if (Ascii.eqb b "o" || Ascii.eqb b "O")%char then read_based 8 digits
            else if (Ascii.eqb b "b" || Ascii.eqb b "B")%char then read_based 2 digits
            else read_unsigned false s
        | EmptyString => read_unsigned false s
        end
      else read_unsigned false s
  end.

(** ToPrimitive: an array is its text, an object (that overrides neither
    [valueOf] nor [toString]) is [[object Object]]. *)
Definition to_primitive (v : value) : value :=
  match v with
  | VArr _ | VObj _ => VStr (to_str v)
  | _ => v
  end.

(** ToNumber. *)
Definition to_number (v : value) : number :=
  match to_primitive v with
  | VUndefined => NaN
  | VNull => Ratio 0 O
  | VBool b => Ratio (if b then 1 else 0) O
  | VNum n => Ratio n O
  | VStr s => string_to_number s
  | VArr _ | VObj _ => NaN
  end.

Definition num_lt (a b : number) : bool :=
  match a, b with
  | NaN, _ | _, NaN => false
  | Infinity x, Infinity y => x && negb y
  | Infinity x, Ratio _ _ => x
  | Ratio _ _, Infinity y => negb y
  | Ratio m O, Ratio n O => m <? n
  | Ratio m j, Ratio n k => m * 10 ^ Z.of_nat k <? n * 10 ^ Z.of_nat j
  end.

Definition num_le (a b : number) : bool :=
  match a, b with
  | NaN, _ | _, NaN => false
  | Infinity x, Infinity y => x || negb y
  | Infinity x, Ratio _ _ => x
  | Ratio _ _, Infinity y => negb y
  | Ratio m O, Ratio n O => m <=? n
  | Ratio m j, Ratio n k => m * 10 ^ Z.of_nat k <=? n * 10 ^ Z.of_nat j
  end.

(** Relational operators: two operands whose primitives are strings are
    compared as strings (by bytes, which is the order of JavaScript on
    strings of the Basic Multilingual Plane), any others as numbers, and a
    NaN makes the comparison false. *)
Definition js_gt (a b : value) : bool :=
  match to_primitive a, to_primitive b with
  | VStr x, VStr y => String.ltb y x
  | _, _ => num_lt (to_number b) (to_number a)
  end.

Definition js_ge (a b : value) : bool :=
  match to_primitive a, to_primitive b with
  | VStr x, VStr y => String.leb y x
  | _, _ => num_le (to_number b) (to_number a)
  end.

(** *** JSON.stringify *)

Definition hex_digit (n : N) : ascii :=
  match n with
  | 0 => "0" | 1 => "1" | 2 => "2" | 3 => "3" | 4 => "4" | 5 => "5"
  | 6 => "6" | 7 => "7" | 8 => "8" | 9 => "9" | 10 => "a" | 11 => "b"
  | 12 => "c" | 13 => "d" | 14 => "e" | _ => "f"
  end%N%char.

(** One character of a quoted JSON string. *)
Definition json_escape (c : ascii) : string :=
  let n := N_of_ascii c in
  if (n =? 34)%N then "\" ++ String c EmptyString
  else if (n =? 92)%N then "\\"
  else if (n =? 8)%N then "\b"
  else if (n =? 9)%N then "\t"
  else if (n =? 10)%N then "\n"
  else if (n =? 12)%N then "\f"
  else if (n =? 13)%N then "\r"
  else if (n <? 32)%N then
    "\u00" ++ String (hex_digit (n / 16)) (String (hex_digit (n mod 16)) EmptyString)
  else String c EmptyString.

Fixpoint json_escape_all (s : string) : string :=
  match s with
  | EmptyString => EmptyString
  | String c rest => json_escape c ++ json_escape_all rest
  end.

Definition dquote : string := String (ascii_of_N 34) EmptyString.

Definition json_quote (s : string) : string :=
  dquote ++ json_escape_all s ++ dquote.

(** [JSON.stringify(v)]; [None] is the [undefined] it returns for
    [undefined]. In an array [undefined] prints as null, in an object the
    property is left out. *)
Fixpoint stringify (v : value) : option string :=
  match v with
  | VUndefined => None
  | VNull => Some "null"
  | VBool true => Some "true"
  | VBool false => Some "false"
  | VNum n => Some (num_string n)
  | VStr s => Some (json_quote s)
  | VArr l =>
      Some ("[" ++ join "," (map (fun x => match stringify x with
                                           | Some s => s
                                           | None => "null"
                                           end) l) ++ "]")
  | VObj ps =>
      Some ("{" ++ join "," (flat_map (fun p => match p with
                                       | (k, x) =>
                                           match stringify x with
                                           | Some s => [json_quote k ++ ":" ++ s]
                                           | None => []
                                           end
                                       end) ps) ++ "}")
  end.

(** A promise that has settled, or a call that returned or threw. *)
Inductive exn : Type :=
| TypeError
| ArgumentError (msg : string)
| Error (msg : string).

Inductive result (A : Type) : Type :=
| Ok (a : A)
| Throw (e : exn).
Arguments Ok {A} a.
Arguments Throw {A} e.

Definition bind {A B : Type} (r : result A) (k : A -> result B) : result B :=
  match r with
  | Ok a => k a
  | Throw e => Throw e
  end.

(** [Buffer.byteLength(s, 'utf8')]: the bytes of a string; a TypeError for
    the [undefined] that [JSON.stringify(undefined)] is. *)
Definition byteLength (s : option string) : result Z :=
  match s with
  | Some text => Ok (Z.of_nat (String.length text))
  | None => Throw TypeError
  end.

End JS.
Import JS.

Notation "x <- r ;; k" := (bind r (fun x => k))
  (at level 61, r at next level, right associativity).


(** ** lodash (version 4), as far as the processor uses it *)

Module Lodash.

(** [_.assign(target, source)]: every own property of the source is set on
    the target, so a later source overrides an earlier one. *)
Definition assign (target source : obj) : obj :=
  fold_left (fun acc p => set acc (fst p) (snd p)) source target.

(** [isLength(value)]: a number that can be the length of an array. *)
Definition isLength (v : value) : option nat :=
  match v with
  | VNum n => if (0 <=? n) && is_safe_integer n then Some (Z.to_nat n) else None
  | _ => None
  end.

(** What [baseEach] visits in an object: the values of its properties, or,
    when the object has a [length] ([isArrayLike]), what it holds at the
    indices below that length. *)
Definition elements (collection : obj) : list value :=
  match isLength (get collection "length") with
  | Some n =>
      map (fun i => get collection (num_string (Z.of_nat i))) (seq 0 n)
  | None => map snd collection
  end.

(** [_.filter(object, predicate)]: the array of the VALUES that satisfy the
    predicate. *)
Definition filter (collection : obj) (predicate : value -> bool)
  : list value :=
  List.filter predicate (elements collection).

(** [_.keys(array)]: the indices of the array, as strings. *)
Definition keys_of_array {A : Type} (l : list A) : list value :=
  map (fun i => VStr (num_string (Z.of_nat i))) (seq 0 (List.length l)).

(** SameValueZero on primitives. Arrays and objects are compared by
    reference in JavaScript; the model holds values, and takes two of them
    for two objects. *)
Definition same_value (a b : value) : bool :=
  match a, b with
  | VUndefined, VUndefined | VNull, VNull => true
  | VBool x, VBool y => Bool.eqb x y
  | VNum x, VNum y => x =? y
  | VStr x, VStr y => String.eqb x y
  | _, _ => false
  end.

(** [baseUniq(array)]: the first occurrence of every element, in order. *)
Definition baseUniq (l : list value) : list value :=
  fold_left (fun acc x => if existsb (same_value x) acc then acc else (acc ++ [x])%list)
            l [].

(** The elements [s[0]], [s[1]], ... of a string: its characters, which are
    its bytes while the string is ASCII. *)
Definition chars (s : string) : list value :=
  map (fun c => VStr (String c EmptyString)) (list_ascii_of_string s).

(** [_.uniq(array)]: [baseUniq] of what has a [length] that is truthy, the
    empty array for anything else. A string has its characters for elements.
    An object that has a [length] is read at the indices below it, and from
    the length 200 on it is handed to [new Set], which throws a TypeError
    for an object. *)
Definition uniq (array : value) : result (list value) :=
  match array with
  | VArr l => Ok (baseUniq l)
  | VStr s => Ok (baseUniq (chars s))
  | VObj o =>
      let length := get o "length" in
      if truthy length then
        if js_ge length (VNum 200) then Throw TypeError
        else
          Ok (baseUniq
                (map (fun i => get o (num_string (Z.of_nat i)))
                     (List.filter (fun i => js_gt length (VNum (Z.of_nat i)))
                                  (seq 0 200))))
      else Ok []
  | _ => Ok []
  end.

End Lodash.

(** ** Auth0Storage.js *)

Module Auth0Storage.

(** Modelled from the spec: the document store the storage wraps is the
    caller's, and not among the sources. Its contract is the one of section
    6: [read()] gives the document, or [undefined] ([None]) while nothing
    was written, and [write(document)] completes, having replaced the
    document. A store that breaks the contract (a [read] or [write] that is
    rejected, a document that is no object) is outside the model. *)
Definition DocStore : Type := option obj.

Definition doc_value (d : DocStore) : value :=
  match d with
  | Some data => VObj data
  | None => VUndefined
  end.

Record t : Type := mk { limit : Z; storage : DocStore }.

(** [new Auth0Storage(storage, limit)]; [storage] is [None] when the caller
    passes nothing. *)
Definition new (storage : option DocStore) (limit : option Z) : result t :=
  match storage with
  | None => Throw (Error "storage is required")
  | Some s =>
      Ok {| limit := match limit with None => 400 | Some l => l end;
            storage := s |}
  end.

Definition getCheckpoint (self : t) (startFrom : value) : result value :=
  match storage self with
  | None => Ok (or_else startFrom VNull)
  | Some data =>
      Ok (or_else (or_else (get data "checkpointId") startFrom) VNull)
  end.

(** [done(status, checkpoint)] resolves to the storage after the write; the
    status object it was given is mutated, so the mutated status is returned
    with it. [data.logs] that is truthy and no array has no [push]. The byte
    length of the [undefined] that [JSON.stringify(undefined)] is, is a
    TypeError; so is [data.logs] on a document that is [undefined]. *)
Definition done (self : t) (status : obj) (checkpoint : value)
  : result (obj * t) :=
  storageSize <- byteLength (stringify (doc_value (storage self))) ;;
  match storage self with
  | None => Throw TypeError
  | Some data =>
      let data := if truthy (get data "logs") then data
                  else set data "logs" (VArr []) in
      match get data "logs" with
      | VArr logs =>
          let logs :=
            if (limit self * 1024 <=? storageSize)
               && negb (Nat.eqb (List.length logs) 0)
            then skipn 5 logs else logs in
          let status := set status "checkpoint" checkpoint in
          let logs := (logs ++ [VObj status])%list in
          let data := set (set data "logs" (VArr logs)) "checkpointId" checkpoint in
          Ok (status, {| limit := limit self; storage := Some data |})
      | _ => Throw TypeError
      end
  end.

End Auth0Storage.

(** ** processor.js *)

Module LogsProcessor.

(** Modelled from the spec: [./storage] (StorageProvider) is not among the
    sources. It is taken to be the CheckpointStore of section 4.2, which is
    the storage of [src/Auth0Storage.js] above, built from the storage
    context with no limit given. *)
Record t : Type := mk { storage : Auth0Storage.t; options : obj }.

Definition defaults : obj :=
  [("batchSize", VNum 100); ("maxRetries", VNum 5);
   ("maxRunTimeSeconds", VNum 20)].

(** [new LogsProcessor(storageContext, options)]; [options] is [None] for
    [null] and [undefined]. The options are checked before the storage is
    built (modelled from the spec, see above). *)
Definition new (storageContext : option Auth0Storage.DocStore)
  (options : option obj) : result t :=
  match options with
  | None => Throw (ArgumentError "Must provide an options object")
  | Some opts =>
      st <- Auth0Storage.new storageContext None ;;
      Ok {| storage := st;
            options := Lodash.assign (Lodash.assign [] opts) defaults |}
  end.

(** [hasTimeLeft(start)], given the clock reading [now] it takes. *)
Definition hasTimeLeft (maxRunTimeSeconds start now : Z) : bool :=
  (start + maxRunTimeSeconds) * 1000 >=? now.

(** [types.concat(array)]: the method of an array or of a string; any
    other value has none, and the call is a TypeError. A string takes the
    text of the array. *)
Definition concat (types : value) (array : list value) : result value :=
  match types with
  | VArr l => Ok (VArr (l ++ array)%list)
  | VStr s => Ok (VStr (s ++ to_str (VArr array)))
  | _ => Throw TypeError
  end.

Definition nullish (v : value) : bool :=
  match v with
  | VUndefined | VNull => true
  | _ => false
  end.

(** Modelled from the spec: [./logTypes], the filter table, is not among the
    sources and is a parameter: an object from the names of the log types to
    the types, of which the code reads the [level] (section 8 has a table of
    bare levels). Reading the [level] of an entry that is [null] or
    [undefined] is a TypeError. *)
Definition getLogFilter (logTypes : obj) (options : obj)
  : result (list value) :=
  let types := or_else (get options "logTypes") (VArr []) in
  types <-
    (if truthy (get options "logLevel") then
       if existsb nullish (Lodash.elements logTypes) then Throw TypeError
       else
         concat types
           (Lodash.keys_of_array
              (Lodash.filter logTypes
                 (fun type => js_ge (prop type "level")
                                    (get options "logLevel"))))
     else Ok types) ;;
  Lodash.uniq types.

(** The numeric configuration [run] reads from [self.options]. *)
Definition number_option (self : t) (k : string) : option Z :=
  match get (options self) k with
  | VNum n => Some n
  | _ => None
  end.

End LogsProcessor.

(** ** LogsProcessor.prototype.run *)

Module Run.

(** What the stream tells its listeners after a request. *)
Inductive StreamEvent (LogRecord : Type) : Type :=
| Data (logs : list LogRecord)
| End
| StreamError (err : value).
Arguments Data {LogRecord} logs.
Arguments End {LogRecord}.
Arguments StreamError {LogRecord} err.

(** Modelled from the spec: [./stream] (LogsApiStream) is not among the
    sources. Its interface is the one of section 6: constructed from the
    start checkpoint, the type filter and the options; [next(limit)] asks
    for a page and is answered by one event, [done()] ends the stream and is
    answered by [end]; [batchSaved()] acknowledges the batch; [status],
    [previousCheckpoint] and [lastCheckpoint] are read from it. *)
Record StreamApi (LogRecord : Type) : Type := {
  Stream : Type;
  open : value -> list value -> obj -> Stream;
  status : Stream -> obj;
  previousCheckpoint : Stream -> value;
  lastCheckpoint : Stream -> value;
  next : Z -> Stream -> Stream * StreamEvent LogRecord;
  done : Stream -> Stream;
  batchSaved : Stream -> Stream
}.
Arguments Stream {LogRecord} _.
Arguments open {LogRecord} _ _ _ _.
Arguments status {LogRecord} _ _.
Arguments previousCheckpoint {LogRecord} _ _.
Arguments lastCheckpoint {LogRecord} _ _.
Arguments next {LogRecord} _ _ _.
Arguments done {LogRecord} _ _.
Arguments batchSaved {LogRecord} _ _.

(** The caller's handler: [onLogsReceived(batch, complete)] calls
    [complete(err)] once; the value it passes is returned ([undefined] for
    no argument), with the handler as its side effects left it. *)
Record HandlerApi (LogRecord : Type) : Type := {
  Handler : Type;
  onLogsReceived : Handler -> list LogRecord -> Handler * value
}.
Arguments Handler {LogRecord} _.
Arguments onLogsReceived {LogRecord} _ _ _.

(** The runtime: what the k-th [new Date().getTime()] of the run reads, the
    time of a record's [date] (every record has a date that [Date] reads),
    and the text of a date, which depends on the time zone of the host. *)
Record Runtime (LogRecord : Type) : Type := {
  clock : nat -> Z;
  record_time : LogRecord -> Z;
  date_text : Z -> string
}.
Arguments clock {LogRecord} _ _.
Arguments record_time {LogRecord} _ _.
Arguments date_text {LogRecord} _ _.

(** How the promise of [run] settles. *)
Inductive Rejection : Type :=
| Value (v : value)
| Exn (e : exn).

Inductive Outcome : Type :=
| Resolved (status : obj) (checkpoint : value)
| Rejected (error : Rejection).

Section Run.

Variable LogRecord : Type.
Variable SA : StreamApi LogRecord.
Variable HA : HandlerApi LogRecord.
Variable RT : Runtime LogRecord.
Variables batchSize maxRetries maxRunTimeSeconds : Z.

(** The calls the run makes on its collaborators, in order. *)
Inductive Effect : Type :=
| Requested (limit : Z)
| Delivered (batch : list LogRecord)
| Saved
| Ended
| Persisted (status : obj) (checkpoint : value).

(** The closure of [run]: its variables and the objects it holds. *)
Record State : Type := mkState {
  stream : Stream SA;
  handler : Handler HA;
  ticks : nat;
  store : Auth0Storage.t;
  start : Z;
  retries : Z;
  lastLogDate : Z;
  logsBatch : list LogRecord;
  trace : list Effect
}.

Definition set_stream (s : Stream SA) (st : State) : State :=
  mkState s (handler st) (ticks st) (store st) (start st) (retries st)
          (lastLogDate st) (logsBatch st) (trace st).

Definition set_handler (h : Handler HA) (st : State) : State :=
  mkState (stream st) h (ticks st) (store st) (start st) (retries st)
          (lastLogDate st) (logsBatch st) (trace st).

Definition set_store (a : Auth0Storage.t) (st : State) : State :=
  mkState (stream st) (handler st) (ticks st) a (start st) (retries st)
          (lastLogDate st) (logsBatch st) (trace st).

Definition set_retries (n : Z) (st : State) : State :=
  mkState (stream st) (handler st) (ticks st) (store st) (start st) n
          (lastLogDate st) (logsBatch st) (trace st).

Definition set_batch (d : Z) (b : list LogRecord) (st : State) : State :=
  mkState (stream st) (handler st) (ticks st) (store st) (start st)
          (retries st) d b (trace st).

Definition emit (e : Effect) (st : State) : State :=
  mkState (stream st) (handler st) (ticks st) (store st) (start st)
          (retries st) (lastLogDate st) (logsBatch st) (trace st ++ [e])%list.

(** [new Date().getTime()] *)
Definition now (st : State) : Z * State :=
  (clock RT (ticks st),
   mkState (stream st) (handler st) (S (ticks st)) (store st)
           (start st) (retries st) (lastLogDate st) (logsBatch st) (trace st)).

(** The settled run: outcome, storage and calls made. *)
Record Final : Type := mkFinal {
  outcome : Outcome;
  final_store : Auth0Storage.t;
  effects : list Effect
}.

Definition runFailed (error : value) (status : obj) (checkpoint : value)
  (st : State) : Final :=
  let status := set status "error" error in
  let st := emit (Persisted status checkpoint) st in
  match Auth0Storage.done (store st) status checkpoint with
  | Ok (_, store') => mkFinal (Rejected (Value error)) store' (trace st)
  | Throw e => mkFinal (Rejected (Exn e)) (store st) (trace st)
  end.

Definition week : Z := 604800000.

Definition outdated (lastLogDate : Z) : string :=
  "Logs are outdated more than for week. Last processed log has date is "
  ++ date_text RT lastLogDate.

Definition runSuccess (status : obj) (checkpoint : value) (st : State)
  : Final :=
  if js_gt (get status "logsProcessed") (VNum 0) then
    let (currentDate, st) := now st in
    let timeDiff := currentDate - lastLogDate st in
    let status :=
      if timeDiff >=? week
      then set status "warning" (VStr (outdated (lastLogDate st)))
      else status in
    let st := emit (Persisted status checkpoint) st in
    match Auth0Storage.done (store st) status checkpoint with
    | Ok (status', store') =>
        mkFinal (Resolved status' checkpoint) store' (trace st)
    | Throw e => mkFinal (Rejected (Exn e)) (store st) (trace st)
    end
  else mkFinal (Resolved status checkpoint) (store st) (trace st).

Definition getNextLimit (st : State) : Z :=
  let limit := batchSize in
  let limit := limit - Z.of_nat (List.length (logsBatch st)) in
  if limit >? 100 then 100 else limit.

Definition skipping (previous last : value) : string :=
  "Skipping logs from " ++ to_str previous ++ " to " ++ to_str last
  ++ " after " ++ num_string maxRetries ++ " retries.".

(** A delivery to the handler and the retries that follow it. *)
Inductive Delivery : Type :=
| Accepted (st : State)
| Concluded (f : Final)
| NoFuel.

(** [handler.onLogsReceived(logsBatch, processComplete)], as far as both
    [processComplete] callbacks agree: on an error [retryProcess] runs, and
    delivers again with the same callback. [n] bounds the retries. *)
Fixpoint deliver (n : nat) (st : State) : Delivery :=
  let (h, err) := onLogsReceived HA (handler st) (logsBatch st) in
  let st := emit (Delivered (logsBatch st)) (set_handler h st) in
  if truthy err then
    let (t, st) := now st in
    if negb (LogsProcessor.hasTimeLeft maxRunTimeSeconds (start st) t) then
      Concluded (runFailed err (status SA (stream st))
                           (previousCheckpoint SA (stream st)) st)
    else if retries st <? maxRetries then
      match n with
      | S n' => deliver n' (set_retries (retries st + 1) st)
      | O => NoFuel
      end
    else
      let error :=
        VArr [VStr (skipping (previousCheckpoint SA (stream st))
                             (lastCheckpoint SA (stream st)));
              err] in
      Concluded (runFailed error (status SA (stream st))
                           (lastCheckpoint SA (stream st)) st)
  else Accepted st.

(** Retries left to the run. *)
Definition retry_fuel (st : State) : nat := Z.to_nat (maxRetries - retries st).

(** What a listener leaves the run in: settled, waiting for the event that
    answers the call it made on the stream, or short of retry fuel. *)
Inductive Reaction : Type :=
| Settled (f : Final)
| Awaiting (ev : StreamEvent LogRecord) (st : State)
| Stuck.

(** [stream.next(getNextLimit())] *)
Definition request (st : State) : Reaction :=
  let limit := getNextLimit st in
  let (s, ev) := next SA limit (stream st) in
  Awaiting ev (emit (Requested limit) (set_stream s st)).

(** The listener of [error]. *)
Definition on_error (err : value) (st : State) : Reaction :=
  Settled (runFailed err (status SA (stream st))
                     (previousCheckpoint SA (stream st)) st).

(** The listener of [end]. *)
Definition on_end (st : State) : Reaction :=
  match deliver (retry_fuel st) st with
  | Accepted st =>
      let st := emit Saved (set_stream (batchSaved SA (stream st)) st) in
      Settled (runSuccess (status SA (stream st))
                          (lastCheckpoint SA (stream st)) st)
  | Concluded f => Settled f
  | NoFuel => Stuck
  end.

(** The listener of [data]. *)
Definition on_data (logs : list LogRecord) (st : State) : Reaction :=
  let st := set_batch (last (map (record_time RT) logs) (lastLogDate st))
                      (logsBatch st ++ logs)%list st in
  if Z.of_nat (List.length (logsBatch st)) <? batchSize then request st
  else
    match deliver (retry_fuel st) st with
    | Accepted st =>
        let st := set_batch (lastLogDate st) [] st in
        let (t, st) := now st in
        if negb (LogsProcessor.hasTimeLeft maxRunTimeSeconds (start st) t)
        then Awaiting End (emit Ended (set_stream (done SA (stream st)) st))
        else request (emit Saved (set_stream (batchSaved SA (stream st)) st))
    | Concluded f => Settled f
    | NoFuel => Stuck
    end.

Definition listen (ev : StreamEvent LogRecord) (st : State) : Reaction :=
  match ev with
  | Data logs => on_data logs st
  | End => on_end st
  | StreamError err => on_error err st
  end.

(** The event loop: the awaited event goes to its listener, until the run is
    settled. [fuel] bounds the events and [None] is a run that waits for
    more of them. *)
Fixpoint pump (fuel : nat) (r : Reaction) : option Final :=
  match r with
  | Settled f => Some f
  | Stuck => None
  | Awaiting ev st =>
      match fuel with
      | O => None
      | S fuel' => pump fuel' (listen ev st)
      end
  end.

(** [createStream(options)] of a processor with this storage: the stream
    is opened at the checkpoint the storage gives for [options.startFrom],
    with the type filter of the options. *)
Definition createStream (logTypes : obj) (storage : Auth0Storage.t)
  (options : obj) : result (Stream SA) :=
  startCheckpoint <- Auth0Storage.getCheckpoint storage (get options "startFrom") ;;
  types <- LogsProcessor.getLogFilter logTypes options ;;
  Ok (open SA startCheckpoint types options).

(** The closure of [run] as the run begins on its stream: the clock was
    read once, for [start]. *)
Definition begin (s : Stream SA) (storage : Auth0Storage.t)
  (handler : Handler HA) : State :=
  mkState s handler 1 storage (clock RT 0) 0 0 [] [].

(** [run(handler)] of a processor with these options and this storage. A
    [createStream] that is rejected rejects the run. *)
Definition run (logTypes : obj) (options : obj)
  (storage : Auth0Storage.t) (handler : Handler HA) (fuel : nat)
  : option Final :=
  match createStream logTypes storage options with
  | Throw e => Some (mkFinal (Rejected (Exn e)) storage [])
  | Ok s => pump fuel (request (begin s storage handler))
  end.

(** The run after [n] more events. *)
Fixpoint after (n : nat) (r : Reaction) : Reaction :=
  match n with
  | O => r
  | S n' =>
      match after n' r with
      | Awaiting ev st => listen ev st
      | r' => r'
      end
  end.

End Run.

Arguments Requested {LogRecord} limit.
Arguments Delivered {LogRecord} batch.
Arguments Saved {LogRecord}.
Arguments Ended {LogRecord}.
Arguments Persisted {LogRecord} status checkpoint.
Arguments mkState {LogRecord SA HA} _ _ _ _ _ _ _ _ _.
Arguments stream {LogRecord SA HA} s.
Arguments handler {LogRecord SA HA} s.
Arguments ticks {LogRecord SA HA} s.
Arguments store {LogRecord SA HA} s.
Arguments start {LogRecord SA HA} s.
Arguments retries {LogRecord SA HA} s.
Arguments lastLogDate {LogRecord SA HA} s.
Arguments logsBatch {LogRecord SA HA} s.
Arguments trace {LogRecord SA HA} s.
Arguments set_stream {LogRecord SA HA} s st.
Arguments set_handler {LogRecord SA HA} h st.
Arguments set_store {LogRecord SA HA} a st.
Arguments set_retries {LogRecord SA HA} n st.
Arguments set_batch {LogRecord SA HA} d b st.
Arguments emit {LogRecord SA HA} e st.
Arguments now {LogRecord SA HA} RT st.
Arguments mkFinal {LogRecord} outcome final_store effects.
Arguments outcome {LogRecord} f.
Arguments final_store {LogRecord} f.
Arguments effects {LogRecord} f.
Arguments runFailed {LogRecord SA HA} error status checkpoint st.
Arguments runSuccess {LogRecord SA HA} RT status checkpoint st.
Arguments getNextLimit {LogRecord SA HA} batchSize st.
Arguments Accepted {LogRecord SA HA} st.
Arguments Concluded {LogRecord SA HA} f.
Arguments NoFuel {LogRecord SA HA}.
Arguments deliver {LogRecord SA HA} RT maxRetries maxRunTimeSeconds n st.
Arguments retry_fuel {LogRecord SA HA} maxRetries st.
Arguments Settled {LogRecord SA HA} f.
Arguments Awaiting {LogRecord SA HA} ev st.
Arguments Stuck {LogRecord SA HA}.
Arguments request {LogRecord SA HA} batchSize st.
Arguments on_error {LogRecord SA HA} err st.
Arguments on_end {LogRecord SA HA} RT maxRetries maxRunTimeSeconds st.
Arguments on_data {LogRecord SA HA} RT batchSize maxRetries maxRunTimeSeconds logs st.
Arguments listen {LogRecord SA HA} RT batchSize maxRetries maxRunTimeSeconds ev st.
Arguments pump {LogRecord SA HA} RT batchSize maxRetries maxRunTimeSeconds fuel r.
Arguments run {LogRecord} SA HA RT batchSize maxRetries maxRunTimeSeconds
  logTypes options storage handler fuel.
Arguments outdated {LogRecord} RT lastLogDate.
Arguments createStream {LogRecord} SA logTypes storage options.
Arguments begin {LogRecord SA HA} RT s storage handler.
Arguments after {LogRecord SA HA} RT batchSize maxRetries maxRunTimeSeconds n r.

(** [run] of a processor: the numbers are read from its options. *)
Definition run_processor {LogRecord : Type} (SA : StreamApi LogRecord)
  (HA : HandlerApi LogRecord) (RT : Runtime LogRecord)
  (logTypes : obj) (self : LogsProcessor.t)
  (handler : Handler HA) (fuel : nat) : option (Final LogRecord) :=
  match LogsProcessor.number_option self "batchSize",
        LogsProcessor.number_option self "maxRetries",
        LogsProcessor.number_option self "maxRunTimeSeconds" with
  | Some batchSize, Some maxRetries, Some maxRunTimeSeconds =>
      run SA HA RT batchSize maxRetries maxRunTimeSeconds logTypes
          (LogsProcessor.options self) (LogsProcessor.storage self)
          handler fuel
  | _, _, _ => None
  end.

End Run.

(** ** Collaborators to run the processor with *)

Module Scenario.
Import Run.

Record Log : Type := mkLog { log_id : string; log_date : Z }.

(** A stream that answers each request with the next event of a script and
    [end] after the last; it counts the records the run acknowledged. *)
Record Script : Type := mkScript {
  pages : list (StreamEvent Log);
  processed : Z;
  pending : Z;
  previous : value;
  latest : value
}.

Definition script_next (limit : Z) (s : Script) : Script * StreamEvent Log :=
  match pages s with
  | [] => (s, End)
  | Data logs :: rest =>
      (mkScript rest (processed s) (pending s + Z.of_nat (List.length logs))
                (previous s)
                (last (map (fun l => VStr (log_id l)) logs) (latest s)),
       Data logs)
  | ev :: rest =>
      (mkScript rest (processed s) (pending s) (previous s) (latest s), ev)
  end.

Definition scripted (script : list (StreamEvent Log)) : StreamApi Log :=
  {| Stream := Script;
     open := fun checkpoint _ _ => mkScript script 0 0 checkpoint checkpoint;
     status := fun s => [("logsProcessed", VNum (processed s))];
     previousCheckpoint := previous;
     lastCheckpoint := latest;
     next := script_next;
     done := fun s => mkScript [] (processed s) (pending s) (previous s) (latest s);
     batchSaved := fun s =>
       mkScript (pages s) (processed s + pending s) 0 (latest s) (latest s) |}.

(** A handler that fails every batch, one that accepts every batch, and one
    that answers from a list and accepts after it. *)
Definition failing : HandlerApi Log :=
  {| Handler := unit;
     onLogsReceived := fun h _ => (h, VStr "sink is down") |}.

Definition accepting : HandlerApi Log :=
  {| Handler := unit;
     onLogsReceived := fun h _ => (h, VUndefined) |}.

Definition answering : HandlerApi Log :=
  {| Handler := list value;
     onLogsReceived := fun h _ =>
       match h with
       | [] => ([], VUndefined)
       | e :: rest => (rest, e)
       end |}.

(** A handler that is busy once, at the first delivery of a batch of a
    hundred records, and fails every delivery of any other batch. *)
Definition flaky : HandlerApi Log :=
  {| Handler := bool;
     onLogsReceived := fun busy_before batch =>
       if Nat.eqb (List.length batch) 100 then
         if busy_before then (true, VUndefined) else (true, VStr "busy")
       else (busy_before, VStr "sink is down") |}.

(** A runtime whose clock reads the times of a list, and [final] after. The
    text of a date stands for the one of the host; no statement rests on
    it. *)
Definition runtime (times : list Z) (final : Z) : Runtime Log :=
  {| clock := fun k => nth k times final;
     record_time := log_date;
     date_text := num_string |}.

Definition r1 : Log := mkLog "id1" 1000.
Definition r2 : Log := mkLog "id2" 2000.

(** A storage with a limit of 0 KiB whose document holds two earlier runs. *)
Definition two_runs : Auth0Storage.t :=
  Auth0Storage.mk 0
    (Some [("checkpointId", VStr "c0");
           ("logs", VArr [VObj [("logsProcessed", VNum 1)];
                          VObj [("logsProcessed", VNum 2)]])]).

(** A storage with the default limit and an empty document. *)
Definition fresh_document : Auth0Storage.t := Auth0Storage.mk 400 (Some []).

(** A stream that has given [r1] after the checkpoint c0. *)
Definition after_r1 : Script := mkScript [] 0 1 (VStr "c0") (VStr "id1").

(** A run that began at 0 ms and, two retries made, is about to deliver
    [r1] once more. *)
Definition late : State Log (scripted []) failing :=
  mkState (SA := scripted []) (HA := failing)
          after_r1 tt 1 fresh_document 0 2 1000 [r1]
          [Requested 2; Delivered [r1]; Delivered [r1]].

(** A stream over a list of records that honours the limit of a request: it
    answers with the next [limit] records, and with [end] once none is
    left. Its checkpoints and count are those of [scripted]. *)
Record Pages : Type := mkPages {
  remaining : list Log;
  acknowledged : Z;
  unacknowledged : Z;
  before_batch : value;
  reached : value
}.

Definition paged (records : list Log) : StreamApi Log :=
  {| Stream := Pages;
     open := fun checkpoint _ _ => mkPages records 0 0 checkpoint checkpoint;
     status := fun s => [("logsProcessed", VNum (acknowledged s))];
     previousCheckpoint := before_batch;
     lastCheckpoint := reached;
     next := fun limit s =>
       match remaining s with
       | [] => (s, End)
       | _ =>
           let page := firstn (Z.to_nat limit) (remaining s) in
           (mkPages (skipn (Z.to_nat limit) (remaining s)) (acknowledged s)
                    (unacknowledged s + Z.of_nat (List.length page))
                    (before_batch s)
                    (last (map (fun l => VStr (log_id l)) page) (reached s)),
            Data page)
       end;
     done := fun s =>
       mkPages [] (acknowledged s) (unacknowledged s) (before_batch s)
               (reached s);
     batchSaved := fun s =>
       mkPages (remaining s) (acknowledged s + unacknowledged s) 0 (reached s)
               (reached s) |}.

Definition r3 : Log := mkLog "id3" 3000.

(** A run that began at 0 ms and is about to deliver [r1] for the first
    time, to a handler that is busy once and then accepts. *)
Definition busy_once : State Log (scripted []) answering :=
  mkState (SA := scripted []) (HA := answering)
          after_r1 [VStr "busy"] 1 fresh_document 0 0 1000 [r1] [Requested 1].

(** Runs of three records in batches of two: one whose handler accepts,
    one whose budget is spent after the first batch, and one whose handler
    fails. *)
Definition steady_run : option (Final Log) :=
  run (paged [r1; r2; r3]) accepting (runtime [] 0) 2 5 20
      [] [] fresh_document tt 6.

Definition timed_out_run : option (Final Log) :=
  run (paged [r1; r2; r3]) accepting (runtime [0; 30000] 30000) 2 5 20
      [] [] fresh_document tt 6.

Definition failing_run : option (Final Log) :=
  run (paged [r1; r2; r3]) failing (runtime [] 0) 2 5 20
      [] [] fresh_document tt 6.

(** The state in which a run waits for an event; [otherwise] when it does
    not wait. *)
Definition state_of {SA : StreamApi Log} {HA : HandlerApi Log}
  (r : Reaction Log SA HA) (otherwise : State Log SA HA) : State Log SA HA :=
  match r with
  | Awaiting _ st => st
  | _ => otherwise
  end.

(** The run of the defaults (batches of 100, 5 retries, 20 seconds) over a
    page of a hundred records and a page of one, with the flaky handler and
    a clock that stands still, as it waits for the end of the stream: the
    first batch was accepted at its retry, [r2] is held. *)
Definition flaky_pages : list (StreamEvent Log) :=
  [Data (repeat r1 100); Data [r2]].

Definition flaky_at_end : State Log (scripted flaky_pages) flaky :=
  let st0 := @begin Log (scripted flaky_pages) flaky (runtime [] 0)
                    (open (scripted flaky_pages) VNull [] []) fresh_document
                    false in
  state_of (@after Log (scripted flaky_pages) flaky (runtime [] 0) 100 5 20 2
                   (request 100 st0)) st0.

(** The run of the defaults over the pages [r1] and [r2], with a handler
    that accepts and a clock that reads 5000 ms, as it waits for the end of
    the stream. *)
Definition young_pages : list (StreamEvent Log) := [Data [r1]; Data [r2]].

Definition young_at_end : State Log (scripted young_pages) accepting :=
  let st0 := @begin Log (scripted young_pages) accepting (runtime [] 5000)
                    (open (scripted young_pages) VNull [] []) fresh_document
                    tt in
  state_of (@after Log (scripted young_pages) accepting (runtime [] 5000)
                   100 5 20 2 (request 100 st0)) st0.

(** That run once the handler has accepted the last batch. *)
Definition young_accepted : State Log (scripted young_pages) accepting :=
  match deliver (runtime [] 5000) 5 20 (retry_fuel 5 young_at_end)
                young_at_end with
  | Accepted st => st
  | _ => young_at_end
  end.

(** A storage whose document holds a checkpoint, a history of one run and a
    property of another writer. *)
Definition one_run : Auth0Storage.t :=
  Auth0Storage.mk 400
    (Some [("checkpointId", VStr "c0"); ("owner", VStr "extension");
           ("logs", VArr [VObj [("logsProcessed", VNum 1)]])]).

End Scenario.

(** ** Definitions the statements use *)

(** The first candidate that is there (truthy), [null] when none is. *)
Definition first_present (candidates : list value) : value :=
  match find truthy candidates with
  | Some v => v
  | None => VNull
  end.

(** The [checkpointId] a storage holds; [undefined] without a document. *)
Definition persisted_checkpoint (self : Auth0Storage.t) : value :=
  match Auth0Storage.storage self with
  | Some data => get data "checkpointId"
  | None => VUndefined
  end.

(** The [logs] of a document as [done] finds them: the array, and the empty
    array it puts in the place of a [logs] that is not there. *)
Definition stored_logs (data : obj) : option (list value) :=
  match get data "logs" with
  | VArr logs => Some logs
  | v => if truthy v then None else Some []
  end.

(** Every number in the value is a safe integer: the value is one that
    JavaScript holds, and [JSON.stringify] prints it as [stringify] does. *)
Fixpoint safe_numbers (v : value) : bool :=
  match v with
  | VNum n => is_safe_integer n
  | VArr l => forallb safe_numbers l
  | VObj ps => forallb (fun p => safe_numbers (snd p)) ps
  | _ => true
  end.

(** [after] is [before] without its five oldest entries, then [entry]. *)
Definition evicts_exactly_five (before after : list value) (entry : value)
  : Prop :=
  exists a b c d e rest,
    before = a :: b :: c :: d :: e :: rest /\ after = (rest ++ [entry])%list.

(** The call is a [done] on the storage; the call is a delivery. *)
Definition is_persist {LogRecord : Type} (e : Run.Effect LogRecord) : bool :=
  match e with
  | Run.Persisted _ _ => true
  | _ => false
  end.

Definition is_delivery {LogRecord : Type} (e : Run.Effect LogRecord) : bool :=
  match e with
  | Run.Delivered _ => true
  | _ => false
  end.

(** A run that gave up on [batch]: after calls that deliver nothing, the
    batch was delivered once and once more per retry, and the status, with
    the error that names the skipped range, went to [done] with the
    [lastCheckpoint] of the stream. The run is rejected with that error when
    [done] is fulfilled, and then the checkpoint is the persisted one; it is
    rejected with the error of [done] otherwise. *)
Definition gave_up {LogRecord : Type} (SA : Run.StreamApi LogRecord)
  (maxRetries : Z) (storage : Auth0Storage.t) (batch : list LogRecord)
  (f : Run.Final LogRecord) : Prop :=
  exists requests s err,
    let error :=
      VArr [VStr (Run.skipping maxRetries (Run.previousCheckpoint SA s)
                               (Run.lastCheckpoint SA s));
            err] in
    let status' := set (Run.status SA s) "error" error in
    Run.effects f =
      (requests ++ repeat (Run.Delivered batch) (S (Z.to_nat maxRetries))
       ++ [Run.Persisted status' (Run.lastCheckpoint SA s)])%list
    /\ existsb is_delivery requests = false
    /\ truthy err = true
    /\ match Auth0Storage.done storage status' (Run.lastCheckpoint SA s) with
       | Ok (_, store') =>
           Run.outcome f = Run.Rejected (Run.Value error)
           /\ Run.final_store f = store'
           /\ persisted_checkpoint store' = Run.lastCheckpoint SA s
       | Throw e =>
           Run.outcome f = Run.Rejected (Run.Exn e)
           /\ Run.final_store f = storage
       end.

(** A run before its first delivery: no retry was made, the storage is the
    one the run began with, and nothing was delivered. *)
Definition untried {LogRecord : Type} {SA : Run.StreamApi LogRecord}
  {HA : Run.HandlerApi LogRecord} (RT : Run.Runtime LogRecord)
  (storage : Auth0Storage.t) (st : Run.State LogRecord SA HA) : Prop :=
  Run.retries st = 0 /\ Run.store st = storage
  /\ Run.start st = Run.clock RT 0
  /\ existsb is_delivery (Run.trace st) = false.

Definition no_delivery_or_gave_up {LogRecord : Type}
  (SA : Run.StreamApi LogRecord) (maxRetries : Z) (storage : Auth0Storage.t)
  (f : Run.Final LogRecord) : Prop :=
  existsb is_delivery (Run.effects f) = false
  \/ exists batch, gave_up SA maxRetries storage batch f.

(** A run that has not touched the storage it began with. *)
Definition quiet {LogRecord : Type} {SA : Run.StreamApi LogRecord}
  {HA : Run.HandlerApi LogRecord} (storage : Auth0Storage.t)
  (st : Run.State LogRecord SA HA) : Prop :=
  Run.store st = storage /\ existsb is_persist (Run.trace st) = false.

(** A settled run that, if it resolved with no record processed, left the
    storage alone. *)
Definition quiet_if_empty {LogRecord : Type} (storage : Auth0Storage.t)
  (f : Run.Final LogRecord) : Prop :=
  forall status checkpoint,
    Run.outcome f = Run.Resolved status checkpoint ->
    get status "logsProcessed" = VNum 0 ->
    Run.final_store f = storage /\ existsb is_persist (Run.effects f) = false.

(** A storage on which [done] can work: it holds a document, whose [logs]
    are an array or are not there. *)
Definition well_formed (self : Auth0Storage.t) : Prop :=
  exists data logs,
    Auth0Storage.storage self = Some data /\ stored_logs data = Some logs.

(** A value that [_.uniq] compares by what it is: anything but an array or
    an object. *)
Definition primitive (v : value) : bool :=
  match v with
  | VArr _ | VObj _ => false
  | _ => true
  end.

(** [options.logTypes || []], as [getLogFilter] reads it. *)
Definition explicit_types (options : obj) : list value :=
  match get options "logTypes" with
  | VArr l => l
  | _ => []
  end.

(** Options and a table as [getLogFilter] expects them: [logTypes] is an
    array or is not there (falsy), and, when there is a [logLevel], no
    entry of the table is [null] or [undefined]. *)
Definition filterable (table options : obj) : Prop :=
  match get options "logTypes" with
  | VArr _ => True
  | v => truthy v = false
  end
  /\ (truthy (get options "logLevel") = true ->
      existsb LogsProcessor.nullish (Lodash.elements table) = false).

(** The retries in a sequence of calls: the deliveries that follow a
    delivery at once. An accepted delivery is followed by another call. *)
Fixpoint retried {LogRecord : Type} (calls : list (Run.Effect LogRecord))
  : nat :=
  match calls with
  | [] => 0
  | e :: rest =>
      match rest with
      | e' :: _ => if is_delivery e && is_delivery e' then S (retried rest)
                   else retried rest
      | [] => 0
      end
  end%nat.

(** The last call is a delivery. *)
Definition ends_with_delivery {LogRecord : Type}
  (calls : list (Run.Effect LogRecord)) : bool :=
  match rev calls with
  | e :: _ => is_delivery e
  | [] => false
  end.

(** The page sizes and the batch sizes among the calls. *)
Definition requested {LogRecord : Type} (e : Run.Effect LogRecord)
  : option Z :=
  match e with
  | Run.Requested limit => Some limit
  | _ => None
  end.

Definition delivered {LogRecord : Type} (e : Run.Effect LogRecord)
  : option (list LogRecord) :=
  match e with
  | Run.Delivered batch => Some batch
  | _ => None
  end.

(** No page is requested after the stream was told it is done. *)
Fixpoint no_request_once_done {LogRecord : Type} (closed : bool)
  (calls : list (Run.Effect LogRecord)) : bool :=
  match calls with
  | [] => true
  | Run.Ended :: rest => no_request_once_done true rest
  | Run.Requested _ :: rest => negb closed && no_request_once_done closed rest
  | _ :: rest => no_request_once_done closed rest
  end.

Definition is_ended {LogRecord : Type} (e : Run.Effect LogRecord) : bool :=
  match e with
  | Run.Ended => true
  | _ => false
  end.

(** A stream that gives no more records than a request asks for. *)
Definition honours_limit {LogRecord : Type} (SA : Run.StreamApi LogRecord)
  : Prop :=
  forall limit s s' logs,
    1 <= limit ->
    Run.next SA limit s = (s', Run.Data logs) ->
    Z.of_nat (List.length logs) <= limit.

(** The records handed to the handler, in the order of the calls. *)
Definition delivered_records {LogRecord : Type}
  (calls : list (Run.Effect LogRecord)) : list LogRecord :=
  flat_map (fun e => match delivered e with
                     | Some batch => batch
                     | None => []
                     end) calls.

(** The run of a processor with these options, storage and handler has its
    stream and, [n] events after its first request, waits for the event
    [ev] in the state [st]. *)
Definition awaits {LogRecord : Type} (SA : Run.StreamApi LogRecord)
  (HA : Run.HandlerApi LogRecord) (RT : Run.Runtime LogRecord)
  (batchSize maxRetries maxRunTimeSeconds : Z) (logTypes options : obj)
  (storage : Auth0Storage.t) (handler : Run.Handler HA)
  (ev : Run.StreamEvent LogRecord) (st : Run.State LogRecord SA HA) : Prop :=
  exists s n,
    Run.createStream SA logTypes storage options = Ok s
    /\ Run.after RT batchSize maxRetries maxRunTimeSeconds n
         (Run.request batchSize (Run.begin RT s storage handler))
       = Run.Awaiting ev st.

(** The event makes the run deliver [batch]: the stream has ended and the
    batch is what the run holds, or the records of the event fill the
    batch. *)
Definition delivers {LogRecord : Type} {SA : Run.StreamApi LogRecord}
  {HA : Run.HandlerApi LogRecord} (batchSize : Z)
  (ev : Run.StreamEvent LogRecord) (st : Run.State LogRecord SA HA)
  (batch : list LogRecord) : Prop :=
  match ev with
  | Run.End => batch = Run.logsBatch st
  | Run.Data logs =>
      batch = (Run.logsBatch st ++ logs)%list
      /\ batchSize <= Z.of_nat (List.length batch)
  | Run.StreamError _ => False
  end.

(** The handler, as it is, fails the delivery of [batch], and as that
    delivery leaves it the next, [n] more times in all. *)
Fixpoint fails_each {LogRecord : Type} (HA : Run.HandlerApi LogRecord)
  (n : nat) (h : Run.Handler HA) (batch : list LogRecord) : Prop :=
  truthy (snd (Run.onLogsReceived HA h batch)) = true
  /\ match n with
     | O => True
     | S n' => fails_each HA n' (fst (Run.onLogsReceived HA h batch)) batch
     end.

(** How a run that began with [storage] has settled: it resolved with no
    record processed, having left the storage alone; or it was rejected
    before it had a stream, with an exception that is [unopened], having
    called nothing; or its last call was the one [done], whose result
    decides the outcome. *)
Definition concluded {LogRecord : Type} (storage : Auth0Storage.t)
  (unopened : exn -> Prop) (f : Run.Final LogRecord) : Prop :=
  exists calls,
    existsb is_persist calls = false
    /\ ((Run.effects f = calls /\ Run.final_store f = storage
         /\ ((exists s c,
                Run.outcome f = Run.Resolved s c
                /\ js_gt (get s "logsProcessed") (VNum 0) = false)
             \/ (calls = []
                 /\ exists x,
                     Run.outcome f = Run.Rejected (Run.Exn x) /\ unopened x)))
        \/ exists s c,
            Run.effects f = (calls ++ [Run.Persisted s c])%list
            /\ match Auth0Storage.done storage s c with
               | Ok (s', store') =>
                   Run.final_store f = store'
                   /\ (Run.outcome f = Run.Resolved s' c
                       /\ js_gt (get s "logsProcessed") (VNum 0) = true
                       \/ Run.outcome f = Run.Rejected (Run.Value (get s "error")))
               | Throw x =>
                   Run.final_store f = storage
                   /\ Run.outcome f = Run.Rejected (Run.Exn x)
               end).

(** ** Objects: reading after writing *)

(** The text is [{"checkpointId":"c1","logs":[{"logsProcessed":12},null]}]. *)
Example stringify_doc :
  byteLength
    (stringify (VObj [("checkpointId", VStr "c1"); ("x", VUndefined);
                      ("logs", VArr [VObj [("logsProcessed", VNum 12)];
                                     VUndefined])]))
  = Ok 56.
Proof. reflexivity. Qed.

Section Objects.

Lemma get_set_same (o : obj) (k : string) (v : value) :
  get (set o k v) k = v.
Proof.
  induction o as [|[k' v'] rest IH]; simpl.
  - now rewrite String.eqb_refl.
  - destruct (String.eqb k' k) eqn:E; simpl; rewrite E; auto.
Qed.

Lemma get_set_other (o : obj) (k k' : string) (v : value) :
  k <> k' -> get (set o k v) k' = get o k'.
Proof.
  intros Hk. induction o as [|[k0 v0] rest IH]; simpl.
  - destruct (String.eqb_spec k k'); congruence.
  - destruct (String.eqb_spec k0 k) as [->|Hne]; simpl.
    + destruct (String.eqb_spec k k'); congruence.
    + now rewrite IH.
Qed.

Lemma set_set_same (o : obj) (k : string) (v w : value) :
  set (set o k v) k w = set o k w.
Proof.
  induction o as [|[k0 v0] rest IH]; simpl.
  - now rewrite String.eqb_refl.
  - destruct (String.eqb k0 k) eqn:E; simpl; rewrite E; congruence.
Qed.

(** An object always has a JSON text. *)
Lemma stringify_object (o : obj) : exists text, stringify (VObj o) = Some text.
Proof. simpl. eauto. Qed.

End Objects.

(** ** The constructor and the options of a run *)

(** Whatever the caller supplies, the constructor leaves the three defaults
    in [options]: they are assigned last. *)
Lemma new_options_are_defaults ctx opts p :
  LogsProcessor.new ctx (Some opts) = Ok p ->
  LogsProcessor.number_option p "batchSize" = Some 100
  /\ LogsProcessor.number_option p "maxRetries" = Some 5
  /\ LogsProcessor.number_option p "maxRunTimeSeconds" = Some 20.
Proof.
  unfold LogsProcessor.new. destruct (Auth0Storage.new ctx None); simpl; [|discriminate].
  intros [= <-]. unfold LogsProcessor.number_option; simpl.
  generalize (Lodash.assign [] opts); intros o.
  unfold LogsProcessor.defaults, Lodash.assign; simpl.
  repeat split.
  - rewrite !get_set_other, get_set_same by discriminate. reflexivity.
  - rewrite get_set_other, get_set_same by discriminate. reflexivity.
  - rewrite get_set_same. reflexivity.
Qed.

(** A processor runs with the numbers its options hold. *)
Lemma run_processor_defaults ctx opts p
  (LogRecord : Type) (SA : Run.StreamApi LogRecord)
  (HA : Run.HandlerApi LogRecord) (RT : Run.Runtime LogRecord)
  logTypes handler fuel :
  LogsProcessor.new ctx (Some opts) = Ok p ->
  Run.run_processor SA HA RT logTypes p handler fuel
  = Run.run SA HA RT 100 5 20 logTypes (LogsProcessor.options p)
            (LogsProcessor.storage p) handler fuel.
Proof.
  intros Hp. destruct (new_options_are_defaults ctx opts p Hp) as (Hb & Hr & Ht).
  unfold Run.run_processor. now rewrite Hb, Hr, Ht.
Qed.

(** C1, at options that name all three values: the processor holds the
    defaults 100, 5 and 20, not the caller's 10, 2 and 60, and its [run] is
    the run with batches of 100, 5 retries and 20 seconds. *)
Theorem constructor_overrides_caller_options :
  exists p,
    LogsProcessor.new (Some None)
      (Some [("batchSize", VNum 10); ("maxRetries", VNum 2);
             ("maxRunTimeSeconds", VNum 60)]) = Ok p
    /\ LogsProcessor.options p =
       [("batchSize", VNum 100); ("maxRetries", VNum 5);
        ("maxRunTimeSeconds", VNum 20)]
    /\ forall (LogRecord : Type) (SA : Run.StreamApi LogRecord)
         (HA : Run.HandlerApi LogRecord) (RT : Run.Runtime LogRecord)
         logTypes handler fuel,
         Run.run_processor SA HA RT logTypes p handler fuel
         = Run.run SA HA RT 100 5 20 logTypes (LogsProcessor.options p)
                   (LogsProcessor.storage p) handler fuel.
Proof. eexists. repeat split. Qed.

(** ** The type filter *)

(** The filter of an array of explicit types and a table without empty
    entries is the explicit types followed by as many indices as the table
    has entries at or above the level, without repetition: the NAMES of the
    entries are lost when [_.filter] turns the table into an array. *)
Lemma getLogFilter_indices table options types :
  truthy (get options "logLevel") = true ->
  get options "logTypes" = VArr types ->
  existsb LogsProcessor.nullish (Lodash.elements table) = false ->
  LogsProcessor.getLogFilter table options =
  Ok (Lodash.baseUniq
        (types ++
         map (fun i => VStr (num_string (Z.of_nat i)))
             (seq 0 (List.length
                (List.filter (fun type => js_ge (prop type "level")
                                                (get options "logLevel"))
                             (Lodash.elements table)))))%list).
Proof.
  intros Hl Ht Hn. unfold LogsProcessor.getLogFilter.
  rewrite Hl, Ht, Hn. reflexivity.
Qed.

(** C2, on the example of the specification: the filter of [logTypes = ["a"]]
    and [logLevel = 2] over the table a: 1, b: 2, c: 3 is ["a", "0", "1"],
    and holds neither "b" nor "c". *)
Theorem getLogFilter_returns_indices :
  LogsProcessor.getLogFilter
    [("a", VObj [("level", VNum 1)]); ("b", VObj [("level", VNum 2)]);
     ("c", VObj [("level", VNum 3)])]
    [("logTypes", VArr [VStr "a"]); ("logLevel", VNum 2)]
  = Ok [VStr "a"; VStr "0"; VStr "1"].
Proof. reflexivity. Qed.

(** With the levels themselves as the values of the table, no entry has a
    [level] and the filter is the explicit types. *)
Example getLogFilter_bare_levels :
  LogsProcessor.getLogFilter
    [("a", VNum 1); ("b", VNum 2); ("c", VNum 3)]
    [("logTypes", VArr [VStr "a"]); ("logLevel", VNum 2)]
  = Ok [VStr "a"].
Proof. reflexivity. Qed.

(** ** Auth0Storage *)

(** [getCheckpoint] is always fulfilled. *)
Lemma getCheckpoint_fulfilled (self : Auth0Storage.t) (startFrom : value) :
  exists checkpoint,
    Auth0Storage.getCheckpoint self startFrom = Ok checkpoint.
Proof.
  unfold Auth0Storage.getCheckpoint.
  destruct (Auth0Storage.storage self); eauto.
Qed.

(** C7: [getCheckpoint(fallback)] is fulfilled for every storage, with or
    without a document, by the first that is there of the persisted
    [checkpointId] and the fallback, and by [null] when neither is. *)
Theorem getCheckpoint_priority (self : Auth0Storage.t) (fallback : value) :
  Auth0Storage.getCheckpoint self fallback
  = Ok (first_present [persisted_checkpoint self; fallback]).
Proof.
  unfold Auth0Storage.getCheckpoint, persisted_checkpoint, first_present, or_else.
  destruct (Auth0Storage.storage self) as [data|]; simpl.
  - destruct (truthy (get data "checkpointId")) eqn:E; simpl.
    + now rewrite E.
    + now destruct (truthy fallback).
  - now destruct (truthy fallback).
Qed.

(** Without a document the fallback is the checkpoint, or [null]. *)
Lemma getCheckpoint_missing_document limit fallback :
  Auth0Storage.getCheckpoint (Auth0Storage.mk limit None) fallback
  = Ok (if truthy fallback then fallback else VNull).
Proof. reflexivity. Qed.

(** C6: while the store holds no document, [done] is rejected with a
    TypeError for every status, checkpoint and limit, and writes nothing. *)
Theorem done_rejects_missing_document (limit : Z) (status : obj)
  (checkpoint : value) :
  Auth0Storage.done (Auth0Storage.mk limit None) status checkpoint
  = Throw TypeError.
Proof. reflexivity. Qed.

(** What [done] writes, for a document whose [logs] are an array or are not
    there: the status with its checkpoint goes to the end of the logs that
    are kept, and the checkpoint becomes the [checkpointId]. *)
Lemma done_document self data logs status checkpoint size :
  Auth0Storage.storage self = Some data ->
  stored_logs data = Some logs ->
  byteLength (stringify (VObj data)) = Ok size ->
  Auth0Storage.done self status checkpoint =
  let status' := set status "checkpoint" checkpoint in
  let kept := if (Auth0Storage.limit self * 1024 <=? size)
                 && negb (Nat.eqb (List.length logs) 0)
              then skipn 5 logs else logs in
  Ok (status',
      Auth0Storage.mk (Auth0Storage.limit self)
        (Some (set (set data "logs" (VArr (kept ++ [VObj status'])%list))
                   "checkpointId" checkpoint))).
Proof.
  intros Hs Hl Hsize. unfold Auth0Storage.done. rewrite Hs.
  change (Auth0Storage.doc_value (Some data)) with (VObj data).
  rewrite Hsize. cbv beta iota delta [bind].
  unfold stored_logs in Hl.
  destruct (get data "logs") as [| |b|n|s|l|ps] eqn:E;
    cbn [truthy] in Hl |- *;
    try (injection Hl as <-);
    try (rewrite get_set_same; cbn [List.length Nat.eqb negb];
         rewrite andb_false_r, set_set_same; reflexivity).
  - destruct b; [discriminate|]. injection Hl as <-.
    rewrite get_set_same; cbn [List.length Nat.eqb negb].
    now rewrite andb_false_r, set_set_same.
  - destruct (negb (n =? 0)); [discriminate|]. injection Hl as <-.
    rewrite get_set_same; cbn [List.length Nat.eqb negb].
    now rewrite andb_false_r, set_set_same.
  - destruct (negb (String.eqb s EmptyString)); [discriminate|]. injection Hl as <-.
    rewrite get_set_same; cbn [List.length Nat.eqb negb].
    now rewrite andb_false_r, set_set_same.
  - rewrite E. reflexivity.
  - discriminate.
Qed.

(** C3, as amended: for a document whose [logs] are an array (or are not
    there) and whose numbers are safe integers, so that its JSON text is the
    one JavaScript prints, [done] evicts the oldest entries, five of them or
    all when there are fewer than five, exactly when that text has at least
    [limit * 1024] bytes and the logs are not empty; otherwise it evicts
    nothing. In both cases the status, with its checkpoint set, is appended,
    the checkpoint becomes the [checkpointId] and the document is written. *)
Theorem done_evicts_up_to_five self data logs status checkpoint size :
  Auth0Storage.storage self = Some data ->
  safe_numbers (VObj data) = true ->
  stored_logs data = Some logs ->
  byteLength (stringify (VObj data)) = Ok size ->
  exists evicted kept,
    logs = (evicted ++ kept)%list
    /\ (Auth0Storage.limit self * 1024 <= size /\ logs <> [] ->
        evicted = firstn 5 logs
        /\ List.length evicted = Nat.min 5 (List.length logs)
        /\ evicted <> [])
    /\ (~ (Auth0Storage.limit self * 1024 <= size /\ logs <> []) ->
        evicted = [])
    /\ Auth0Storage.done self status checkpoint =
       Ok (set status "checkpoint" checkpoint,
           Auth0Storage.mk (Auth0Storage.limit self)
             (Some (set (set data "logs"
                             (VArr (kept ++
                                    [VObj (set status "checkpoint" checkpoint)])%list))
                        "checkpointId" checkpoint))).
Proof.
  intros Hs _ Hl Hsize.
  rewrite (done_document self data logs status checkpoint size Hs Hl Hsize). cbv zeta.
  destruct (Auth0Storage.limit self * 1024 <=? size) eqn:Hfull;
    [apply Z.leb_le in Hfull | apply Z.leb_gt in Hfull].
  - destruct logs as [|x rest].
    + exists [], []. cbn. repeat split; try tauto; intros [_ H]; congruence.
    + exists (firstn 5 (x :: rest)), (skipn 5 (x :: rest)).
      rewrite firstn_skipn. cbn [List.length Nat.eqb negb andb].
      repeat split.
      * apply length_firstn.
      * discriminate.
      * intros H. exfalso. apply H. split; [assumption|discriminate].
  - exists [], logs. cbn [andb app]. repeat split; try reflexivity; lia.
Qed.

Lemma done_evicts_up_to_five_witness :
  exists evicted kept,
    [VObj [("logsProcessed", VNum 1)]; VObj [("logsProcessed", VNum 2)]]
    = (evicted ++ kept)%list
    /\ Auth0Storage.done Scenario.two_runs [("logsProcessed", VNum 3)] (VStr "c1") =
       Ok ([("logsProcessed", VNum 3); ("checkpoint", VStr "c1")],
           Auth0Storage.mk 0
             (Some (set (set [("checkpointId", VStr "c0");
                              ("logs", VArr [VObj [("logsProcessed", VNum 1)];
                                             VObj [("logsProcessed", VNum 2)]])]
                             "logs"
                             (VArr (kept ++
                                [VObj [("logsProcessed", VNum 3);
                                       ("checkpoint", VStr "c1")]])%list))
                        "checkpointId" (VStr "c1")))).
Proof.
  destruct (done_evicts_up_to_five Scenario.two_runs
              [("checkpointId", VStr "c0");
               ("logs", VArr [VObj [("logsProcessed", VNum 1)];
                              VObj [("logsProcessed", VNum 2)]])]
              [VObj [("logsProcessed", VNum 1)]; VObj [("logsProcessed", VNum 2)]]
              [("logsProcessed", VNum 3)] (VStr "c1") 70
              eq_refl eq_refl eq_refl eq_refl)
    as (evicted & kept & Hlogs & _ & _ & Hdone).
  exists evicted, kept. split; [exact Hlogs | exact Hdone].
Defined.

(** C3, as stated, fails on a document of two entries, whose numbers are
    1 and 2: its text has 70 bytes, at least the 0 bytes of the limit, and
    the logs are not empty, yet [done] leaves just the new status, having
    evicted two entries. *)
Lemma done_evicts_two_of_two :
  byteLength (stringify (Auth0Storage.doc_value
                           (Auth0Storage.storage Scenario.two_runs))) = Ok 70
  /\ safe_numbers (Auth0Storage.doc_value
                     (Auth0Storage.storage Scenario.two_runs)) = true
  /\ Auth0Storage.limit Scenario.two_runs * 1024 <= 70
  /\ stored_logs [("checkpointId", VStr "c0");
                  ("logs", VArr [VObj [("logsProcessed", VNum 1)];
                                 VObj [("logsProcessed", VNum 2)]])]
     = Some [VObj [("logsProcessed", VNum 1)]; VObj [("logsProcessed", VNum 2)]]
  /\ Auth0Storage.done Scenario.two_runs [("logsProcessed", VNum 3)] (VStr "c1")
     = Ok ([("logsProcessed", VNum 3); ("checkpoint", VStr "c1")],
           Auth0Storage.mk 0
             (Some [("checkpointId", VStr "c1");
                    ("logs", VArr [VObj [("logsProcessed", VNum 3);
                                         ("checkpoint", VStr "c1")]])]))
  /\ ~ evicts_exactly_five
        [VObj [("logsProcessed", VNum 1)]; VObj [("logsProcessed", VNum 2)]]
        [VObj [("logsProcessed", VNum 3); ("checkpoint", VStr "c1")]]
        (VObj [("logsProcessed", VNum 3); ("checkpoint", VStr "c1")]).
Proof.
  repeat split; try reflexivity.
  - cbn. lia.
  - intros (a & b & c & d & e & rest & H & _). discriminate H.
Qed.

(** ** The run *)

Section RunFacts.
Import Run.

Variable LogRecord : Type.
Variable SA : StreamApi LogRecord.
Variable HA : HandlerApi LogRecord.
Variable RT : Runtime LogRecord.
Variables batchSize maxRetries maxRunTimeSeconds : Z.

Local Abbreviation State := (Run.State LogRecord SA HA).
Local Abbreviation deliver := (deliver RT maxRetries maxRunTimeSeconds).
Local Abbreviation on_end := (on_end RT maxRetries maxRunTimeSeconds).
Local Abbreviation on_data := (on_data RT batchSize maxRetries maxRunTimeSeconds).
Local Abbreviation listen := (listen RT batchSize maxRetries maxRunTimeSeconds).
Local Abbreviation pump := (pump RT batchSize maxRetries maxRunTimeSeconds).
Local Abbreviation hasTimeLeft := (LogsProcessor.hasTimeLeft maxRunTimeSeconds).

(** *** getNextLimit *)

(** C10: the page size asked for is the smaller of 100 and the room left in
    the batch; so it is at most 100 and at most that room. *)
Theorem getNextLimit_min (st : State) :
  getNextLimit batchSize st
  = Z.min 100 (batchSize - Z.of_nat (List.length (logsBatch st)))
  /\ getNextLimit batchSize st <= 100
  /\ getNextLimit batchSize st
     <= batchSize - Z.of_nat (List.length (logsBatch st)).
Proof.
  unfold getNextLimit.
  destruct (Z.gtb_spec (batchSize - Z.of_nat (List.length (logsBatch st))) 100);
    lia.
Qed.

(** *** runFailed *)

Lemma runFailed_effects error status checkpoint (st : State) :
  effects (runFailed error status checkpoint st)
  = (trace st ++ [Persisted (set status "error" error) checkpoint])%list.
Proof.
  unfold runFailed.
  destruct (Auth0Storage.done _ _ _) as [[s a]|e]; reflexivity.
Qed.

Lemma runFailed_rejected error status checkpoint (st : State) :
  exists r, outcome (runFailed error status checkpoint st) = Rejected r.
Proof.
  unfold runFailed.
  destruct (Auth0Storage.done _ _ _) as [[s a]|e]; simpl; eauto.
Qed.

(** How a failed run settles: with the error once the status is persisted,
    with the error of [done] otherwise. *)
Lemma runFailed_settles error status checkpoint (st : State) :
  match Auth0Storage.done (store st) (set status "error" error) checkpoint with
  | Ok (_, store') =>
      outcome (runFailed error status checkpoint st) = Rejected (Value error)
      /\ final_store (runFailed error status checkpoint st) = store'
  | Throw e =>
      outcome (runFailed error status checkpoint st) = Rejected (Exn e)
      /\ final_store (runFailed error status checkpoint st) = store st
  end.
Proof.
  unfold runFailed. simpl.
  destruct (Auth0Storage.done _ _ _) as [[s a]|e]; simpl; auto.
Qed.

(** A [done] that is fulfilled leaves its checkpoint as the [checkpointId]. *)
Lemma done_persists_checkpoint self status checkpoint status' self' :
  Auth0Storage.done self status checkpoint = Ok (status', self') ->
  persisted_checkpoint self' = checkpoint
  /\ status' = set status "checkpoint" checkpoint.
Proof.
  unfold Auth0Storage.done, persisted_checkpoint.
  destruct (byteLength _) as [size|e]; [|discriminate]. cbv beta iota delta [bind].
  destruct (Auth0Storage.storage self) as [data|]; [|discriminate].
  match goal with |- context [get ?d "logs"] => destruct (get d "logs") end;
    try discriminate.
  intros [= <- <-]. simpl. now rewrite get_set_same.
Qed.

(** *** Deliveries and retries *)

Lemma deliver_eq n (st : State) :
  deliver n st =
  let (h, err) := onLogsReceived HA (handler st) (logsBatch st) in
  let st := emit (Delivered (logsBatch st)) (set_handler h st) in
  if truthy err then
    let (t, st) := now RT st in
    if negb (hasTimeLeft (start st) t) then
      Concluded (runFailed err (status SA (stream st))
                           (previousCheckpoint SA (stream st)) st)
    else if retries st <? maxRetries then
      match n with
      | S n' => deliver n' (set_retries (retries st + 1) st)
      | O => NoFuel
      end
    else
      Concluded (runFailed
                   (VArr [VStr (skipping maxRetries
                                         (previousCheckpoint SA (stream st))
                                         (lastCheckpoint SA (stream st)));
                          err])
                   (status SA (stream st)) (lastCheckpoint SA (stream st)) st)
  else Accepted st.
Proof. destruct n; reflexivity. Qed.

Ltac fields :=
  cbn [now emit set_handler set_retries set_stream set_batch set_store
       stream handler ticks store start retries lastLogDate logsBatch trace
       fst snd] in *.

Lemma repeat_snoc {A : Type} (x : A) (k : nat) (l : list A) :
  ((l ++ [x]) ++ repeat x k)%list = (l ++ repeat x (S k))%list.
Proof. now rewrite <- app_assoc. Qed.

(** An accepted delivery changes the handler, the clock and the retries
    only, and has made deliveries of the one batch. *)
Lemma deliver_accepted n (st st' : State) :
  deliver n st = Accepted st' ->
  stream st' = stream st /\ store st' = store st /\ start st' = start st
  /\ logsBatch st' = logsBatch st /\ lastLogDate st' = lastLogDate st
  /\ exists k, trace st'
               = (trace st ++ repeat (Delivered (logsBatch st)) (S k))%list.
Proof.
  revert st. induction n as [|n IH]; intros st; rewrite deliver_eq;
    destruct (onLogsReceived HA (handler st) (logsBatch st)) as [h err];
    cbv zeta; destruct (truthy err); fields;
    try (intros [= <-]; fields; repeat split; exists 0%nat; reflexivity);
    destruct (negb (hasTimeLeft (start st) (clock RT (ticks st))));
    try discriminate;
    destruct (retries st <? maxRetries); try discriminate.
  intros Hd. apply IH in Hd. fields.
  destruct Hd as (? & ? & ? & ? & ? & k & Hk).
  repeat split; try assumption.
  exists (S k). rewrite Hk. apply repeat_snoc.
Qed.

(** A delivery that settles the run rejects it. *)
Lemma deliver_concluded n (st : State) f :
  deliver n st = Concluded f -> exists r, outcome f = Rejected r.
Proof.
  revert st. induction n as [|n IH]; intros st; rewrite deliver_eq;
    destruct (onLogsReceived HA (handler st) (logsBatch st)) as [h err];
    cbv zeta; destruct (truthy err); fields; try discriminate;
    destruct (negb (hasTimeLeft (start st) (clock RT (ticks st))));
    try (intros [= <-]; apply runFailed_rejected);
    destruct (retries st <? maxRetries);
    try (intros [= <-]; apply runFailed_rejected); try discriminate.
  apply IH.
Qed.

(** The retries left to the run are fuel enough for a delivery. *)
Lemma deliver_fuel n (st : State) :
  (retry_fuel maxRetries st <= n)%nat -> deliver n st <> NoFuel.
Proof.
  unfold retry_fuel. revert st.
  induction n as [|n IH]; intros st Hn; rewrite deliver_eq;
    destruct (onLogsReceived HA (handler st) (logsBatch st)) as [h err];
    cbv zeta; destruct (truthy err); fields; try discriminate;
    destruct (negb (hasTimeLeft (start st) (clock RT (ticks st))));
    try discriminate;
    destruct (Z.ltb_spec (retries st) maxRetries); try discriminate.
  - lia.
  - apply IH. fields. lia.
Qed.

(** So no listener is ever short of retry fuel: a run that does not settle
    is a run that waits for an event. *)
Lemma listen_not_stuck ev (st : State) : listen ev st <> Stuck.
Proof.
  destruct ev as [logs| |err]; cbn [Run.listen].
  - unfold Run.on_data, request.
    set (st1 := set_batch _ _ st).
    destruct (_ <? batchSize).
    + destruct (next SA _ _); discriminate.
    + pose proof (@deliver_fuel (retry_fuel maxRetries st1) st1 (Nat.le_refl _)).
      destruct (deliver _ st1); try congruence.
      fields. destruct (negb _); [discriminate|].
      destruct (next SA _ _); discriminate.
  - unfold Run.on_end.
    pose proof (@deliver_fuel (retry_fuel maxRetries st) st (Nat.le_refl _)).
    destruct (deliver _ st); congruence.
  - discriminate.
Qed.

(** C5: when the handler fails a delivery and the clock that [retryProcess]
    then reads is past [(start + maxRunTimeSeconds) * 1000], the run is
    settled at once, whatever the retries made so far and left: nothing is
    delivered again, the status with the handler's error is handed to
    [done] with the stream's [previousCheckpoint], and the run is rejected,
    with the handler's error once [done] has made that checkpoint the
    persisted one, with the error of [done] otherwise. *)
Theorem retry_after_budget n (st : State) h err :
  onLogsReceived HA (handler st) (logsBatch st) = (h, err) ->
  truthy err = true ->
  (start st + maxRunTimeSeconds) * 1000 < clock RT (ticks st) ->
  hasTimeLeft (start st) (clock RT (ticks st)) = false
  /\ exists f,
      deliver n st = Concluded f
      /\ effects f =
         (trace st ++
          [Delivered (logsBatch st);
           Persisted (set (status SA (stream st)) "error" err)
                     (previousCheckpoint SA (stream st))])%list
      /\ match Auth0Storage.done (store st)
                 (set (status SA (stream st)) "error" err)
                 (previousCheckpoint SA (stream st)) with
         | Ok (_, store') =>
             outcome f = Rejected (Value err)
             /\ final_store f = store'
             /\ persisted_checkpoint store' = previousCheckpoint SA (stream st)
         | Throw e =>
             outcome f = Rejected (Exn e) /\ final_store f = store st
         end.
Proof.
  intros Hh Herr Hlate.
  assert (Hleft : hasTimeLeft (start st) (clock RT (ticks st)) = false).
  { unfold LogsProcessor.hasTimeLeft. rewrite Z.geb_leb. apply Z.leb_gt. lia. }
  split; [exact Hleft|].
  rewrite deliver_eq, Hh. cbv zeta. rewrite Herr. fields. rewrite Hleft.
  cbn [negb]. eexists. split; [reflexivity|]. split.
  - rewrite runFailed_effects. fields. now rewrite <- app_assoc.
  - match goal with
    | |- context [runFailed ?e ?s ?c ?x] =>
        pose proof (runFailed_settles e s c x) as Hs
    end.
    fields.
    destruct (Auth0Storage.done (store st)
                (set (status SA (stream st)) "error" err)
                (previousCheckpoint SA (stream st))) as [[s' a]|e] eqn:Hd.
    + destruct Hs as [Ho Hf]. repeat split; try assumption.
      now apply done_persists_checkpoint in Hd.
    + exact Hs.
Qed.

(** A batch whose every delivery fails, within the budget, is delivered
    once and then once per retry the run has left; after that the run
    settles as failed with the skipped range. *)
Lemma deliver_exhausts batch n (st : State) :
  (forall h, truthy (snd (onLogsReceived HA h batch)) = true) ->
  logsBatch st = batch ->
  (forall k, (ticks st <= k)%nat -> hasTimeLeft (start st) (clock RT k) = true) ->
  n = Z.to_nat (maxRetries - retries st) ->
  exists err (st' : State),
    truthy err = true
    /\ deliver n st =
       Concluded (runFailed
                    (VArr [VStr (skipping maxRetries
                                          (previousCheckpoint SA (stream st))
                                          (lastCheckpoint SA (stream st)));
                           err])
                    (status SA (stream st)) (lastCheckpoint SA (stream st)) st')
    /\ store st' = store st
    /\ trace st' = (trace st ++ repeat (Delivered batch) (S n))%list.
Proof.
  intros Hfail. revert st.
  induction n as [|n IH]; intros st Hb Hleft Hn; rewrite deliver_eq;
    pose proof (Hfail (handler st)) as Herr; rewrite <- Hb in Herr;
    destruct (onLogsReceived HA (handler st) (logsBatch st)) as [h err];
    cbn [snd] in Herr; cbv zeta; rewrite Herr; fields;
    rewrite (Hleft (ticks st) (Nat.le_refl _));
    cbn [negb]; destruct (Z.ltb_spec (retries st) maxRetries); try lia.
  - exists err. eexists. split; [exact Herr|]. split; [reflexivity|].
    fields. rewrite Hb. split; reflexivity.
  - destruct (IH (set_retries (retries st + 1)
                    (mkState (stream st) h (S (ticks st)) (store st) (start st)
                             (retries st) (lastLogDate st) (logsBatch st)
                             (trace st ++ [Delivered (logsBatch st)])%list)))
      as (err' & st' & Ht & Hd & Hs & Htr); fields; try assumption; try lia.
    + intros k Hk. apply Hleft. lia.
    + exists err', st'. split; [exact Ht|]. split; [exact Hd|].
      split; [exact Hs|]. rewrite Htr, Hb. apply repeat_snoc.
Qed.

Lemma deliver_skips (st : State) :
  (forall h, truthy (snd (onLogsReceived HA h (logsBatch st))) = true) ->
  (forall k, (ticks st <= k)%nat -> hasTimeLeft (start st) (clock RT k) = true) ->
  exists f err,
    let error :=
      VArr [VStr (skipping maxRetries (previousCheckpoint SA (stream st))
                           (lastCheckpoint SA (stream st)));
            err] in
    let status' := set (status SA (stream st)) "error" error in
    deliver (retry_fuel maxRetries st) st = Concluded f
    /\ truthy err = true
    /\ effects f =
       (trace st
        ++ repeat (Delivered (logsBatch st))
                  (S (Z.to_nat (maxRetries - retries st)))
        ++ [Persisted status' (lastCheckpoint SA (stream st))])%list
    /\ match Auth0Storage.done (store st) status'
                               (lastCheckpoint SA (stream st)) with
       | Ok (_, store') =>
           outcome f = Rejected (Value error)
           /\ final_store f = store'
           /\ persisted_checkpoint store' = lastCheckpoint SA (stream st)
       | Throw e =>
           outcome f = Rejected (Exn e) /\ final_store f = store st
       end.
Proof.
  intros Hfail Hleft.
  destruct (deliver_exhausts (logsBatch st) (retry_fuel maxRetries st) st
              Hfail eq_refl Hleft eq_refl)
    as (err & st' & Herr & Hd & Hstore & Htrace).
  eexists. exists err. cbv zeta.
  split; [exact Hd|]. split; [exact Herr|]. split.
  - rewrite runFailed_effects, Htrace, <- app_assoc. reflexivity.
  - match goal with
    | |- context [runFailed ?e ?s ?c ?x] =>
        pose proof (runFailed_settles e s c x) as H
    end.
    rewrite Hstore in H.
    destruct (Auth0Storage.done (store st) _ _) as [[s' a]|e] eqn:Hdone.
    + destruct H as [Ho Hf]. repeat split; try assumption.
      now apply done_persists_checkpoint in Hdone.
    + exact H.
Qed.

(** A delivery that settles the run is how its listener settles it, and so
    how the run ends. *)
Lemma settled_by_delivery (st : State) f :
  deliver (retry_fuel maxRetries st) st = Concluded f ->
  on_end st = Settled f
  /\ forall (st0 : State) logs,
      st = set_batch (last (map (record_time RT) logs) (lastLogDate st0))
                     (logsBatch st0 ++ logs)%list st0 ->
      (Z.of_nat (List.length (logsBatch st)) <? batchSize) = false ->
      on_data logs st0 = Settled f.
Proof.
  intros Hd. split.
  - unfold Run.on_end. now rewrite Hd.
  - intros st0 logs Hst Hfull. unfold Run.on_data. rewrite <- Hst, Hfull.
    now rewrite Hd.
Qed.

(** *** A handler that always fails *)

Section AlwaysFails.

Variable storage : Auth0Storage.t.
Hypothesis always_fails : forall h b, truthy (snd (onLogsReceived HA h b)) = true.
Hypothesis in_budget : forall k, hasTimeLeft (clock RT 0) (clock RT k) = true.

Local Abbreviation untried := (untried RT storage).
Local Abbreviation no_delivery_or_gave_up :=
  (no_delivery_or_gave_up SA maxRetries storage).

Lemma deliver_gives_up (st : State) :
  untried st ->
  exists f,
    deliver (retry_fuel maxRetries st) st = Concluded f
    /\ gave_up SA maxRetries storage (logsBatch st) f.
Proof.
  intros (Hr & Hs & Hst & Htr).
  destruct (deliver_skips st) as (f & err & Hd & Herr & Heff & Hdone).
  - intros h. apply always_fails.
  - intros k _. rewrite Hst. apply in_budget.
  - exists f. split; [exact Hd|].
    exists (trace st), (stream st), err. cbv zeta.
    rewrite Hr, Z.sub_0_r, Hs in *. auto.
Qed.

Lemma listen_untried ev (st : State) :
  untried st ->
  match listen ev st with
  | Settled f => no_delivery_or_gave_up f
  | Awaiting _ st' => untried st'
  | Stuck => False
  end.
Proof.
  intros Hu. destruct ev as [logs| |err]; cbn [Run.listen].
  - unfold Run.on_data.
    set (st1 := set_batch _ _ st).
    assert (Hu1 : untried st1) by exact Hu.
    destruct (Z.of_nat (List.length (logsBatch st1)) <? batchSize).
    + unfold request. destruct (next SA _ (stream st1)) as [s ev'].
      destruct Hu1 as (Hr & Hs & Hst & Htr).
      repeat split; fields; try assumption.
      rewrite existsb_app, Htr. reflexivity.
    + destruct (deliver_gives_up st1 Hu1) as (f & -> & Hf).
      right. eexists. exact Hf.
  - unfold Run.on_end.
    destruct (deliver_gives_up st Hu) as (f & -> & Hf).
    right. eexists. exact Hf.
  - unfold on_error. left. rewrite runFailed_effects, existsb_app.
    destruct Hu as (_ & _ & _ & ->). reflexivity.
Qed.

Lemma pump_untried fuel (r : Reaction LogRecord SA HA) f :
  pump fuel r = Some f ->
  match r with
  | Settled f' => no_delivery_or_gave_up f'
  | Awaiting _ st => untried st
  | Stuck => True
  end ->
  no_delivery_or_gave_up f.
Proof.
  revert r. induction fuel as [|fuel IH]; intros [f'|ev st|]; cbn [Run.pump];
    try discriminate; try (intros [= <-]; auto).
  intros Hp Hu. apply (IH _ Hp).
  pose proof (listen_untried ev st Hu) as Hl.
  destruct (listen ev st); auto.
Qed.

End AlwaysFails.

Lemma delivery_in_effects (l : list (Effect LogRecord)) batch :
  In (Delivered batch) l -> existsb is_delivery l = true.
Proof. intros H. apply existsb_exists. exists (Delivered batch). auto. Qed.

(** On the whole run: when the handler fails every delivery there is and
    every reading of the clock is within the budget, the batch that is
    delivered is the first, no retry was made before it, and it is delivered
    once and then [maxRetries] times before the run gives up. *)
Lemma always_failing_handler_exhausts_retries
  logTypes options storage handler fuel f batch :
  (forall h b, truthy (snd (onLogsReceived HA h b)) = true) ->
  (forall k, hasTimeLeft (clock RT 0) (clock RT k) = true) ->
  run SA HA RT batchSize maxRetries maxRunTimeSeconds logTypes options
      storage handler fuel = Some f ->
  In (Delivered batch) (effects f) ->
  exists requests s err,
    let error :=
      VArr [VStr (skipping maxRetries (previousCheckpoint SA s)
                           (lastCheckpoint SA s));
            err] in
    let status' := set (status SA s) "error" error in
    effects f =
      (requests ++ repeat (Delivered batch) (S (Z.to_nat maxRetries))
       ++ [Persisted status' (lastCheckpoint SA s)])%list
    /\ existsb is_delivery requests = false
    /\ truthy err = true
    /\ match Auth0Storage.done storage status' (lastCheckpoint SA s) with
       | Ok (_, store') =>
           outcome f = Rejected (Value error)
           /\ final_store f = store'
           /\ persisted_checkpoint store' = lastCheckpoint SA s
       | Throw e =>
           outcome f = Rejected (Exn e) /\ final_store f = storage
       end.
Proof.
  intros Hfail Hbudget Hrun Hin. change (gave_up SA maxRetries storage batch f).
  unfold run in Hrun.
  destruct (createStream SA logTypes storage options) as [s0|e];
    [|injection Hrun as <-; destruct Hin].
  unfold request, begin in Hrun. fields.
  destruct (next SA _ _) as [s ev].
  apply (pump_untried storage Hfail Hbudget) in Hrun.
  - destruct Hrun as [Hnone|[batch' Hg]].
    + apply delivery_in_effects in Hin. congruence.
    + destruct Hg as (requests & s' & err & Heff & Hreq & Hrest).
      assert (batch = batch') as ->; [|exists requests, s', err; auto].
      rewrite Heff in Hin. apply in_app_or in Hin. destruct Hin as [Hin|Hin].
      * apply delivery_in_effects in Hin. congruence.
      * apply in_app_or in Hin. destruct Hin as [Hin|[Hin|[]]].
        -- apply repeat_spec in Hin. congruence.
        -- discriminate.
  - repeat split; reflexivity.
Qed.

(** *** Successful runs *)

Lemma runSuccess_quiet storage status checkpoint (st : State) :
  quiet storage st -> quiet_if_empty storage (runSuccess RT status checkpoint st).
Proof.
  intros [Hs Ht] s c. unfold runSuccess.
  destruct (js_gt (get status "logsProcessed") (VNum 0)) eqn:Hgt.
  - fields.
    match goal with |- context [Auth0Storage.done ?a ?b ?d] =>
      destruct (Auth0Storage.done a b d) as [[status' store']|e] eqn:Hd
    end; cbn [outcome]; [|discriminate].
    intros [= <- <-] Hzero. exfalso.
    apply done_persists_checkpoint in Hd. destruct Hd as [_ ->].
    rewrite get_set_other in Hzero by discriminate.
    destruct (_ >=? week) in Hzero;
      [rewrite get_set_other in Hzero by discriminate|];
      rewrite Hzero in Hgt; discriminate.
  - cbn [outcome final_store effects]. intros _ _. auto.
Qed.

Lemma listen_quiet storage ev (st : State) :
  quiet storage st ->
  match listen ev st with
  | Settled f => quiet_if_empty storage f
  | Awaiting _ st' => quiet storage st'
  | Stuck => True
  end.
Proof.
  assert (Hreq : forall st1 : State, quiet storage st1 ->
            match request batchSize st1 with
            | Awaiting _ st' => quiet storage st'
            | _ => False
            end).
  { intros st1 [Hs Ht]. unfold request.
    destruct (next SA _ (stream st1)) as [s ev']. split; fields; auto.
    rewrite existsb_app, Ht. reflexivity. }
  assert (Hrej : forall n (st1 : State) f,
            deliver n st1 = Concluded f -> quiet_if_empty storage f).
  { intros n st1 f Hd s c Ho. apply deliver_concluded in Hd.
    destruct Hd as [r Hr]. congruence. }
  assert (Hacc : forall n (st1 st2 : State),
            quiet storage st1 -> deliver n st1 = Accepted st2 ->
            quiet storage st2).
  { intros n st1 st2 [Hs Ht] Hd. apply deliver_accepted in Hd.
    destruct Hd as (_ & Hstore & _ & _ & _ & k & Hk). split; [congruence|].
    rewrite Hk, existsb_app, Ht. cbn [orb].
    clear. induction (S k); cbn; auto. }
  intros Hq. destruct ev as [logs| |err]; cbn [Run.listen].
  - unfold Run.on_data.
    set (st1 := set_batch _ _ st).
    assert (Hq1 : quiet storage st1) by exact Hq.
    destruct (Z.of_nat (List.length (logsBatch st1)) <? batchSize).
    + specialize (Hreq st1 Hq1). destruct (request batchSize st1); tauto.
    + destruct (deliver _ st1) as [st2|f|] eqn:Hd; [|eapply Hrej; eauto|exact I].
      apply (Hacc _ _ _ Hq1) in Hd. destruct Hd as [Hs2 Ht2]. fields.
      destruct (negb _).
      * split; fields; auto. rewrite existsb_app, Ht2. reflexivity.
      * match goal with |- match request _ ?x with _ => _ end =>
          assert (Hx : quiet storage x)
            by (split; fields; auto; rewrite existsb_app, Ht2; reflexivity);
          specialize (Hreq x Hx); destruct (request batchSize x)
        end; tauto.
  - unfold Run.on_end.
    destruct (deliver _ st) as [st2|f|] eqn:Hd; [|eapply Hrej; eauto|exact I].
    apply (Hacc _ _ _ Hq) in Hd. destruct Hd as [Hs2 Ht2].
    apply runSuccess_quiet. split; fields; auto.
    rewrite existsb_app, Ht2. reflexivity.
  - unfold on_error. intros s c Ho.
    destruct (runFailed_rejected err (status SA (stream st))
                (previousCheckpoint SA (stream st)) st) as [r Hr].
    congruence.
Qed.

Lemma pump_quiet storage fuel (r : Reaction LogRecord SA HA) f :
  pump fuel r = Some f ->
  match r with
  | Settled f' => quiet_if_empty storage f'
  | Awaiting _ st => quiet storage st
  | Stuck => True
  end ->
  quiet_if_empty storage f.
Proof.
  revert r. induction fuel as [|fuel IH]; intros [f'|ev st|]; cbn [Run.pump];
    try discriminate; try (intros [= <-]; auto).
  intros Hp Hq. apply (IH _ Hp).
  pose proof (listen_quiet storage ev st Hq) as Hl.
  destruct (listen ev st); auto.
Qed.

(** C8: a run that resolves with a status whose [logsProcessed] is 0 has
    made no call of [done] on the storage, and the storage, its document
    and checkpoint with it, is the one the run began with. *)
Theorem empty_run_persists_nothing
  logTypes options storage handler fuel f status checkpoint :
  run SA HA RT batchSize maxRetries maxRunTimeSeconds logTypes options
      storage handler fuel = Some f ->
  outcome f = Resolved status checkpoint ->
  get status "logsProcessed" = VNum 0 ->
  final_store f = storage /\ existsb is_persist (effects f) = false.
Proof.
  intros Hrun Ho Hzero. unfold run in Hrun.
  destruct (createStream SA logTypes storage options) as [s0|e];
    [|injection Hrun as <-; discriminate Ho].
  unfold request, begin in Hrun. fields. destruct (next SA _ _) as [s ev].
  apply (pump_quiet storage) in Hrun.
  - exact (Hrun status checkpoint Ho Hzero).
  - split; reflexivity.
Qed.

(** What [runSuccess] does with a status of at least one record processed:
    it attaches the warning exactly when the clock it reads is 604,800,000
    ms or more past [lastLogDate], hands the status to [done] with the
    checkpoint, and settles the run by what [done] answers. *)
Lemma runSuccess_attaches_warning status checkpoint (st : State) n :
  get status "logsProcessed" = VNum n ->
  0 < n ->
  exists status_w,
    (604800000 <= clock RT (ticks st) - lastLogDate st ->
     status_w = set status "warning" (VStr (outdated RT (lastLogDate st))))
    /\ (clock RT (ticks st) - lastLogDate st < 604800000 ->
        status_w = status)
    /\ effects (runSuccess RT status checkpoint st)
       = (trace st ++ [Persisted status_w checkpoint])%list
    /\ match Auth0Storage.done (store st) status_w checkpoint with
       | Ok (_, store') =>
           outcome (runSuccess RT status checkpoint st)
           = Resolved (set status_w "checkpoint" checkpoint) checkpoint
           /\ final_store (runSuccess RT status checkpoint st) = store'
           /\ persisted_checkpoint store' = checkpoint
       | Throw e =>
           outcome (runSuccess RT status checkpoint st) = Rejected (Exn e)
           /\ final_store (runSuccess RT status checkpoint st) = store st
       end.
Proof.
  intros Hn Hpos. unfold runSuccess. rewrite Hn.
  replace (js_gt (VNum n) (VNum 0)) with true
    by (unfold js_gt; cbn; symmetry; apply Z.ltb_lt; exact Hpos).
  fields. unfold week.
  match goal with |- context [if ?c then set status "warning" ?w else status] =>
    exists (if c then set status "warning" w else status)
  end.
  destruct (Z.geb_spec (clock RT (ticks st) - lastLogDate st) 604800000).
  - split; [reflexivity|]. split; [lia|].
    destruct (Auth0Storage.done _ _ _) as [[s' a]|e] eqn:Hd; cbn; auto.
    apply done_persists_checkpoint in Hd. destruct Hd as [-> ->]. auto.
  - split; [lia|]. split; [reflexivity|].
    destruct (Auth0Storage.done _ _ _) as [[s' a]|e] eqn:Hd; cbn; auto.
    apply done_persists_checkpoint in Hd. destruct Hd as [-> ->]. auto.
Qed.

(** Only [runSuccess] resolves a run. *)
Lemma pump_resolved fuel (r : Reaction LogRecord SA HA) f s c :
  pump fuel r = Some f ->
  outcome f = Resolved s c ->
  match r with
  | Settled f' =>
      exists st : State,
        f' = runSuccess RT (status SA (stream st))
                        (lastCheckpoint SA (stream st)) st
  | _ => True
  end ->
  exists st : State,
    f = runSuccess RT (status SA (stream st)) (lastCheckpoint SA (stream st)) st.
Proof.
  intros Hp Ho. revert r Hp.
  induction fuel as [|fuel IH]; intros [f'|ev st|]; cbn [Run.pump];
    try discriminate; try (intros [= <-] Hr; auto).
  intros Hp _. apply (IH _ Hp). clear IH.
  assert (Hrej : forall n (x : State) f',
            deliver n x = Concluded f' ->
            pump fuel (@Settled LogRecord SA HA f') = Some f ->
            False).
  { intros n x f' Hd Hf. apply deliver_concluded in Hd. destruct Hd as [r' Hr'].
    destruct fuel; cbn in Hf; injection Hf as ->; congruence. }
  destruct ev as [logs| |err]; cbn [Run.listen] in *.
  - unfold Run.on_data, request in *.
    repeat match goal with
           | |- context [if ?b then _ else _] => destruct b
           | |- context [match deliver ?n ?x with _ => _ end] =>
               destruct (deliver n x) eqn:Hd
           | |- context [let (_, _) := next SA ?l ?x in _] =>
               destruct (next SA l x)
           | |- context [let (_, _) := now RT ?x in _] => fields
           end; auto.
    exfalso. eapply Hrej; eauto.
  - unfold Run.on_end in *. destruct (deliver _ st) eqn:Hd; auto.
    + eexists. reflexivity.
    + exfalso. eapply Hrej; eauto.
  - unfold on_error in *. exfalso.
    destruct (runFailed_rejected err (status SA (stream st))
                (previousCheckpoint SA (stream st)) st) as [r' Hr'].
    destruct fuel; cbn in Hp; injection Hp as <-; congruence.
Qed.

Lemma resolved_by_runSuccess logTypes options storage handler fuel f s c :
  run SA HA RT batchSize maxRetries maxRunTimeSeconds logTypes options
      storage handler fuel = Some f ->
  outcome f = Resolved s c ->
  exists st : State,
    f = runSuccess RT (status SA (stream st)) (lastCheckpoint SA (stream st)) st.
Proof.
  intros Hrun Ho. unfold run in Hrun.
  destruct (createStream SA logTypes storage options) as [s1|e];
    [|injection Hrun as <-; discriminate Ho].
  unfold request, begin in Hrun. fields. destruct (next SA _ _) as [s0 ev].
  apply (pump_resolved _ _ _ _ _ Hrun Ho). exact I.
Qed.

End RunFacts.

(** ** The theorems at work *)

Section Scenarios.
Import Run Scenario.

(** The scenario of section 8: batches of two, the pages [r1] and [r2],
    then the end, and a handler that accepts. The handler gets [r1; r2] and,
    at the end, the empty batch; the run resolves with two records processed
    and the checkpoint of the last. *)
Example two_pages_one_batch :
  run (scripted [Data [r1]; Data [r2]]) accepting (runtime [] 0) 2 5 20
      [] [] fresh_document tt 4
  = Some (mkFinal
            (Resolved [("logsProcessed", VNum 2); ("checkpoint", VStr "id2")]
                      (VStr "id2"))
            (Auth0Storage.mk 400
               (Some [("logs", VArr [VObj [("logsProcessed", VNum 2);
                                           ("checkpoint", VStr "id2")]]);
                      ("checkpointId", VStr "id2")]))
            [Requested 2; Requested 1; Delivered [r1; r2]; Saved; Requested 2;
             Delivered []; Saved;
             Persisted [("logsProcessed", VNum 2)] (VStr "id2")]).
Proof. reflexivity. Qed.

Example always_failing_handler_gives_up :
  exists f,
    run (scripted [Data [r1]; Data [r2]]) failing (runtime [] 0) 100 5 20
        [] [] fresh_document tt 5 = Some f
    /\ gave_up (scripted [Data [r1]; Data [r2]]) 5 fresh_document [r1; r2] f.
Proof.
  eexists. split; [vm_compute; reflexivity|].
  apply (always_failing_handler_exhausts_retries
           Log (scripted [Data [r1]; Data [r2]]) failing (runtime [] 0) 100 5 20
           [] [] fresh_document tt 5).
  - intros h b. reflexivity.
  - intros [|k]; reflexivity.
  - vm_compute. reflexivity.
  - cbn. auto.
Qed.

(** C4, as stated, fails in a run with the defaults (batches of 100 and 5
    retries): the handler is busy at the first delivery of the first batch
    and accepts its retry, then fails every delivery of the batch [r2],
    with the clock within the budget throughout. One retry was spent on the
    first batch, so [r2] is delivered 5 times, 4 retries and not 5, before
    the run gives up: nowhere is it delivered 6 times in a row. *)
Lemma retries_spent_on_an_earlier_batch :
  (forall h, truthy (snd (onLogsReceived flaky h [r2])) = true)
  /\ (forall k, LogsProcessor.hasTimeLeft 20 (clock (runtime [] 0) 0)
                                         (clock (runtime [] 0) k) = true)
  /\ exists f,
      run (scripted [Data (repeat r1 100); Data [r2]]) flaky (runtime [] 0)
          100 5 20 [] [] fresh_document false 6 = Some f
      /\ effects f =
         ([Requested 100; Delivered (repeat r1 100);
           Delivered (repeat r1 100); Saved; Requested 100; Requested 99]
          ++ repeat (Delivered [r2]) 5
          ++ [Persisted
                [("logsProcessed", VNum 100);
                 ("error",
                  VArr [VStr "Skipping logs from id1 to id2 after 5 retries.";
                        VStr "sink is down"])]
                (VStr "id2")])%list
      /\ ~ (exists before after,
              effects f =
              (before ++ repeat (Delivered [r2]) (S (Z.to_nat 5)) ++ after)%list).
Proof.
  split; [intros [|]; reflexivity|].
  split; [intros [|k]; reflexivity|].
  eexists. split; [vm_compute; reflexivity|].
  split; [vm_compute; reflexivity|].
  intros (before & after & H). vm_compute in H.
  repeat (destruct before as [|? before];
          [discriminate H | injection H as _ H]).
  destruct before; discriminate H.
Qed.

Lemma retry_after_budget_witness :
  exists f,
    deliver (runtime [0; 30000] 30000) 5 20 3 late = Concluded f
    /\ outcome f = Rejected (Value (VStr "sink is down"))
    /\ persisted_checkpoint (final_store f) = VStr "c0".
Proof.
  destruct (retry_after_budget Log (scripted []) failing
              (runtime [0; 30000] 30000) 5 20 3 late tt (VStr "sink is down"))
    as (_ & f & Hd & _ & Ho & Hs & Hc).
  - reflexivity.
  - reflexivity.
  - cbn. lia.
  - exists f. split; [exact Hd|]. split; [exact Ho|].
    rewrite Hs. exact Hc.
Defined.

Lemma empty_run_persists_nothing_witness :
  exists f,
    run (scripted []) accepting (runtime [] 0) 100 5 20
        [] [] fresh_document tt 1 = Some f
    /\ final_store f = fresh_document
    /\ existsb is_persist (effects f) = false.
Proof.
  eexists. split; [vm_compute; reflexivity|].
  apply (empty_run_persists_nothing
           Log (scripted []) accepting (runtime [] 0) 100 5 20
           [] [] fresh_document tt 1 _ [("logsProcessed", VNum 0)] VNull);
    reflexivity.
Defined.

(** C9, as stated, fails in a run with the defaults: the last record is
    dated 2000 ms and the clock reads 604,802,000 ms when the run settles, a
    week later to the millisecond and no more; the run resolves with the
    warning attached. *)
Lemma warning_at_exactly_a_week :
  exists f status,
    run (scripted [Data [r1]; Data [r2]]) accepting
        (runtime [0] 604802000) 100 5 20 [] [] fresh_document tt 5 = Some f
    /\ outcome f = Resolved status (VStr "id2")
    /\ get status "logsProcessed" = VNum 2
    /\ (exists date,
          get status "warning"
          = VStr ("Logs are outdated more than for week. "
                  ++ "Last processed log has date is " ++ date))
    /\ ~ (clock (runtime [0] 604802000) 1 - log_date r2 > 604800000).
Proof.
  eexists. eexists. split; [vm_compute; reflexivity|].
  cbn [outcome]. split; [reflexivity|]. split; [reflexivity|].
  split; [eexists; reflexivity|]. cbn. lia.
Qed.

End Scenarios.

(** ** More on the checkpoint storage *)

Section StorageFacts.

(** What a fulfilled [done] leaves: a document whose history ends with the
    status, the checkpoint on it, and whose [checkpointId] is the
    checkpoint. *)
Lemma done_appends self status checkpoint status' self' :
  Auth0Storage.done self status checkpoint = Ok (status', self') ->
  status' = set status "checkpoint" checkpoint
  /\ Auth0Storage.limit self' = Auth0Storage.limit self
  /\ exists data kept,
      Auth0Storage.storage self' = Some data
      /\ get data "logs" = VArr (kept ++ [VObj status'])%list
      /\ get data "checkpointId" = checkpoint.
Proof.
  unfold Auth0Storage.done.
  destruct (byteLength _) as [size|e]; [|discriminate].
  cbv beta iota delta [bind].
  destruct (Auth0Storage.storage self) as [data|]; [|discriminate].
  match goal with |- context [get ?d "logs"] => destruct (get d "logs") end;
    try discriminate.
  intros [= <- <-]. split; [reflexivity|]. split; [reflexivity|].
  eexists. eexists. split; [reflexivity|].
  rewrite get_set_other, !get_set_same by discriminate. auto.
Qed.

Lemma byteLength_object (data : obj) :
  exists size, byteLength (stringify (VObj data)) = Ok size.
Proof. simpl. eauto. Qed.

Lemma done_well_formed self status checkpoint :
  well_formed self -> exists r, Auth0Storage.done self status checkpoint = Ok r.
Proof.
  intros (data & logs & Hs & Hl).
  destruct (byteLength_object data) as [size Hsize].
  rewrite (done_document self data logs status checkpoint size Hs Hl Hsize).
  cbv zeta. eauto.
Qed.

Lemma done_leaves_well_formed self status checkpoint status' self' :
  Auth0Storage.done self status checkpoint = Ok (status', self') ->
  well_formed self'.
Proof.
  intros Hd. apply done_appends in Hd.
  destruct Hd as (_ & _ & data & kept & Hs & Hl & _).
  exists data. eexists. split; [exact Hs|].
  unfold stored_logs. rewrite Hl. reflexivity.
Qed.

Lemma done_ill_formed self status checkpoint :
  ~ well_formed self ->
  Auth0Storage.done self status checkpoint = Throw TypeError.
Proof.
  intros Hn. unfold Auth0Storage.done.
  destruct (Auth0Storage.storage self) as [data|] eqn:Hs; [|reflexivity].
  change (Auth0Storage.doc_value (Some data)) with (VObj data).
  destruct (byteLength_object data) as [size ->].
  cbv beta iota delta [bind].
  destruct (stored_logs data) as [logs|] eqn:Hl.
  - exfalso. apply Hn. exists data, logs. auto.
  - unfold stored_logs in Hl. cbv zeta.
    destruct (get data "logs") as [| |b|n|s|l|ps] eqn:E; cbn [truthy] in *;
      try discriminate.
    + destruct b; [|discriminate]. now rewrite E.
    + destruct (negb (n =? 0)); [|discriminate]. now rewrite E.
    + destruct (negb (String.eqb s EmptyString)); [|discriminate]. now rewrite E.
    + now rewrite E.
Qed.

(** X1: [done] is fulfilled exactly on a storage that holds a document whose
    [logs] are an array or are not there (missing or falsy); on any other it
    is rejected with a TypeError. *)
Theorem done_fulfilled_iff_well_formed self status checkpoint :
  (well_formed self <->
   exists r, Auth0Storage.done self status checkpoint = Ok r)
  /\ (~ well_formed self <->
      Auth0Storage.done self status checkpoint = Throw TypeError).
Proof.
  assert (Hok : (exists r, Auth0Storage.done self status checkpoint = Ok r) ->
                well_formed self).
  { intros [r Hr]. unfold Auth0Storage.done in Hr.
    destruct (Auth0Storage.storage self) as [data|] eqn:Hs; [|discriminate].
    change (Auth0Storage.doc_value (Some data)) with (VObj data) in Hr.
    destruct (byteLength_object data) as [size Hsize]. rewrite Hsize in Hr.
    cbv beta iota zeta delta [bind] in Hr.
    exists data. unfold stored_logs.
    destruct (get data "logs") as [| |b|n|s|l|ps] eqn:E; cbn [truthy] in *;
      eauto.
    - destruct b; eauto. rewrite E in Hr. discriminate.
    - destruct (negb (n =? 0)); eauto. rewrite E in Hr. discriminate.
    - destruct (negb (String.eqb s EmptyString)); eauto.
      rewrite E in Hr. discriminate.
    - rewrite E in Hr. discriminate. }
  split; split.
  - apply done_well_formed.
  - exact Hok.
  - apply done_ill_formed.
  - intros Ht Hw. destruct (done_well_formed self status checkpoint Hw) as [r Hr].
    congruence.
Qed.

(** X2: once [done] has been fulfilled on a storage, every later [done] on
    it is fulfilled as well. *)
Theorem done_stays_fulfilled self status checkpoint status' self' :
  Auth0Storage.done self status checkpoint = Ok (status', self') ->
  forall status2 checkpoint2,
    exists status2' self2,
      Auth0Storage.done self' status2 checkpoint2 = Ok (status2', self2)
      /\ well_formed self2.
Proof.
  intros Hd status2 checkpoint2.
  apply done_leaves_well_formed in Hd.
  destruct (done_well_formed self' status2 checkpoint2 Hd) as [[s2 a2] Hr].
  exists s2, a2. split; [exact Hr|].
  exact (done_leaves_well_formed _ _ _ _ _ Hr).
Qed.

(** X3: a fulfilled [done] changes nothing of the document but [logs] and
    [checkpointId], nothing of the status but [checkpoint], and keeps the
    limit of the storage. *)
Theorem done_frame self data status checkpoint status' self' :
  Auth0Storage.storage self = Some data ->
  Auth0Storage.done self status checkpoint = Ok (status', self') ->
  Auth0Storage.limit self' = Auth0Storage.limit self
  /\ (forall k, k <> "checkpoint" -> get status' k = get status k)
  /\ exists data',
      Auth0Storage.storage self' = Some data'
      /\ forall k, k <> "logs" -> k <> "checkpointId" ->
                   get data' k = get data k.
Proof.
  intros Hs. unfold Auth0Storage.done. rewrite Hs.
  change (Auth0Storage.doc_value (Some data)) with (VObj data).
  destruct (byteLength_object data) as [size ->].
  cbv beta iota zeta delta [bind].
  set (data0 := if truthy (get data "logs") then data
                else set data "logs" (VArr [])).
  assert (H0 : forall k, k <> "logs" -> get data0 k = get data k).
  { intros k Hk. unfold data0. destruct (truthy _); [reflexivity|].
    apply get_set_other. congruence. }
  destruct (get data0 "logs"); try discriminate.
  intros [= <- <-]. split; [reflexivity|]. split.
  - intros k Hk. apply get_set_other. congruence.
  - eexists. split; [reflexivity|]. intros k Hl Hc.
    rewrite !get_set_other by congruence. now apply H0.
Qed.

(** X4: after a fulfilled [done], [getCheckpoint] gives back the checkpoint
    that was persisted, whatever the fallback; when that checkpoint is
    falsy it gives the fallback, or [null]. *)
Theorem done_then_getCheckpoint self status checkpoint status' self' fallback :
  Auth0Storage.done self status checkpoint = Ok (status', self') ->
  Auth0Storage.getCheckpoint self' fallback
  = Ok (first_present [checkpoint; fallback])
  /\ (truthy checkpoint = true ->
      Auth0Storage.getCheckpoint self' fallback = Ok checkpoint).
Proof.
  intros Hd. apply done_appends in Hd.
  destruct Hd as (_ & _ & data & kept & Hs & _ & Hc).
  unfold Auth0Storage.getCheckpoint, first_present, or_else. rewrite Hs, Hc.
  cbn [find]. destruct (truthy checkpoint) eqn:E; cbv iota.
  - rewrite E. split; reflexivity.
  - split; [|intros H; discriminate H]. now destruct (truthy fallback).
Qed.

End StorageFacts.

(** ** More on the processor: constructor, filter, time *)

Section ProcessorFacts.

(** [_.assign] onto a target: a key of the source reads as in the source,
    any other key as in the target. *)
Lemma get_assign (source : obj) :
  NoDup (map fst source) ->
  forall target k,
    (In k (map fst source) ->
     get (Lodash.assign target source) k = get source k)
    /\ (~ In k (map fst source) ->
        get (Lodash.assign target source) k = get target k).
Proof.
  unfold Lodash.assign.
  induction source as [|[k0 v0] rest IH]; intros Hnd target k; cbn.
  - split; [intros []|reflexivity].
  - apply NoDup_cons_iff in Hnd. destruct Hnd as [Hk0 Hnd].
    destruct (IH Hnd (set target k0 v0) k) as [Hin Hout].
    destruct (String.eqb_spec k0 k) as [->|Hne].
    + split; [|tauto]. intros _. rewrite (Hout Hk0). apply get_set_same.
    + split.
      * intros [Heq|Hk]; [congruence|auto].
      * intros Hn. rewrite Hout by tauto. now apply get_set_other.
Qed.

(** X6: the constructor passes every other option of the caller through:
    a key that is none of the three defaults reads in the options of the
    processor as in the options given. *)
Theorem new_passes_other_options ctx opts p k :
  LogsProcessor.new ctx (Some opts) = Ok p ->
  NoDup (map fst opts) ->
  k <> "batchSize" -> k <> "maxRetries" -> k <> "maxRunTimeSeconds" ->
  get (LogsProcessor.options p) k = get opts k.
Proof.
  unfold LogsProcessor.new.
  destruct (Auth0Storage.new ctx None); cbn [bind]; [|discriminate].
  intros [= <-] Hnd Hb Hr Ht. cbn [LogsProcessor.options].
  rewrite !get_set_other by congruence.
  destruct (get_assign opts Hnd [] k) as [Hin Hnot].
  destruct (in_dec string_dec k (map fst opts)) as [Hk|Hk]; [auto|].
  rewrite (Hnot Hk). clear -Hk.
  induction opts as [|[k0 v0] rest IH]; cbn in *; [reflexivity|].
  destruct (String.eqb_spec k0 k); [tauto|]. apply IH. tauto.
Qed.

(** *** The type filter *)

Lemma same_value_eq a b :
  primitive a = true -> (Lodash.same_value a b = true <-> a = b).
Proof.
  destruct a, b; cbn; intros Hp; try discriminate;
    split; intros H; try discriminate; try reflexivity;
    try (injection H as ->).
  - f_equal. now apply Bool.eqb_prop.
  - apply Bool.eqb_reflx.
  - f_equal. now apply Z.eqb_eq.
  - apply Z.eqb_refl.
  - f_equal. now apply String.eqb_eq.
  - apply String.eqb_refl.
Qed.

Lemma seen_before x acc :
  primitive x = true ->
  (existsb (Lodash.same_value x) acc = true <-> In x acc).
Proof.
  intros Hp. rewrite existsb_exists. split.
  - intros (y & Hy & Hs). apply (same_value_eq x y Hp) in Hs. congruence.
  - intros Hin. exists x. split; [exact Hin|]. now apply same_value_eq.
Qed.

Lemma NoDup_snoc {A : Type} (l : list A) (x : A) :
  NoDup l -> ~ In x l -> NoDup (l ++ [x]).
Proof.
  induction l as [|y l IH]; cbn; intros Hnd Hx.
  - repeat constructor. intros [].
  - apply NoDup_cons_iff in Hnd. destruct Hnd as [Hy Hnd].
    constructor.
    + rewrite in_app_iff. cbn. intuition congruence.
    + apply IH; tauto.
Qed.

Local Abbreviation keep_first :=
  (fun (acc : list value) (x : value) =>
     if existsb (Lodash.same_value x) acc then acc else (acc ++ [x])%list).

(** [baseUniq] goes on from what it has kept, and only ever adds to it. *)
Lemma uniq_extends l acc :
  exists rest, fold_left keep_first l acc = (acc ++ rest)%list.
Proof.
  revert acc. induction l as [|x l IH]; intros acc; cbn.
  - exists []. now rewrite app_nil_r.
  - destruct (existsb _ acc); [apply IH|].
    destruct (IH (acc ++ [x])%list) as [rest ->].
    exists (x :: rest). now rewrite <- app_assoc.
Qed.

Lemma uniq_set l acc :
  Forall (fun v => primitive v = true) l ->
  NoDup acc ->
  NoDup (fold_left keep_first l acc)
  /\ forall x, In x (fold_left keep_first l acc) <-> In x acc \/ In x l.
Proof.
  revert acc. induction l as [|x l IH]; intros acc Hp Hnd; cbn.
  - split; [exact Hnd|]. intros y. tauto.
  - inversion Hp as [|? ? Hx Hl]; subst.
    destruct (existsb _ acc) eqn:E.
    + apply (seen_before x acc Hx) in E.
      destruct (IH acc Hl Hnd) as [H1 H2]. split; [exact H1|].
      intros y. rewrite H2. intuition congruence.
    + assert (Hn : ~ In x acc).
      { intros Hin. apply (seen_before x acc Hx) in Hin. congruence. }
      destruct (IH (acc ++ [x])%list Hl (NoDup_snoc acc x Hnd Hn)) as [H1 H2].
      split; [exact H1|]. intros y. rewrite H2, in_app_iff. cbn. tauto.
Qed.

Lemma uniq_distinct l acc :
  Forall (fun v => primitive v = true) l ->
  NoDup (acc ++ l) ->
  fold_left keep_first l acc = (acc ++ l)%list.
Proof.
  revert acc. induction l as [|x l IH]; intros acc Hp Hnd; cbn.
  - now rewrite app_nil_r.
  - inversion Hp as [|? ? Hx Hl]; subst.
    assert (Hn : ~ In x acc).
    { apply NoDup_remove_2 in Hnd. rewrite in_app_iff in Hnd. tauto. }
    destruct (existsb _ acc) eqn:E.
    + apply (seen_before x acc Hx) in E. tauto.
    + rewrite IH; [now rewrite <- app_assoc|exact Hl|].
      now rewrite <- app_assoc.
Qed.

Lemma getLogFilter_unfold table options :
  filterable table options ->
  LogsProcessor.getLogFilter table options =
  Ok (fold_left keep_first
        (if truthy (get options "logLevel") then
           Lodash.keys_of_array
             (Lodash.filter table
                (fun type => js_ge (prop type "level") (get options "logLevel")))
         else [])
        (Lodash.baseUniq (explicit_types options))).
Proof.
  intros [Ht Hn].
  unfold LogsProcessor.getLogFilter, explicit_types, Lodash.baseUniq.
  assert (Htypes : or_else (get options "logTypes") (VArr [])
                   = VArr (match get options "logTypes" with
                           | VArr l => l
                           | _ => []
                           end)).
  { unfold or_else.
    destruct (get options "logTypes"); try (rewrite Ht; reflexivity).
    reflexivity. }
  rewrite Htypes.
  destruct (truthy (get options "logLevel")); [|reflexivity].
  rewrite (Hn eq_refl). cbn [LogsProcessor.concat bind Lodash.uniq].
  unfold Lodash.baseUniq. now rewrite fold_left_app.
Qed.

Lemma keys_of_array_are_indices {A : Type} (l : list A) x :
  In x (Lodash.keys_of_array l) <->
  exists i, (i < List.length l)%nat /\ x = VStr (num_string (Z.of_nat i)).
Proof.
  unfold Lodash.keys_of_array. rewrite in_map_iff. split.
  - intros (i & <- & Hi). apply in_seq in Hi. exists i. split; [lia|reflexivity].
  - intros (i & Hi & ->). exists i. split; [reflexivity|]. apply in_seq. lia.
Qed.

Lemma keys_of_array_primitive {A : Type} (l : list A) :
  Forall (fun v => primitive v = true) (Lodash.keys_of_array l).
Proof.
  apply Forall_forall. intros x Hx. apply keys_of_array_are_indices in Hx.
  destruct Hx as (i & _ & ->). reflexivity.
Qed.

(** X7: for explicit types that are an array of primitives (names), or
    are not there, and a table without empty entries, the filter is
    returned, holds no value twice, holds every explicit type, and holds
    nothing else but indices below the number of entries of the table:
    never a name of the table that the options did not give. *)
Theorem getLogFilter_is_a_set table options :
  filterable table options ->
  Forall (fun v => primitive v = true) (explicit_types options) ->
  exists types,
    LogsProcessor.getLogFilter table options = Ok types
    /\ NoDup types
    /\ (forall x, In x (explicit_types options) -> In x types)
    /\ (forall x, In x types ->
                  In x (explicit_types options)
                  \/ exists i, (i < List.length (Lodash.elements table))%nat
                               /\ x = VStr (num_string (Z.of_nat i))).
Proof.
  intros Hf Hp. rewrite (getLogFilter_unfold table options Hf).
  eexists. split; [reflexivity|].
  destruct (uniq_set (explicit_types options) [] Hp (NoDup_nil _)) as [Hnd Hin].
  fold (Lodash.baseUniq (explicit_types options)) in Hnd, Hin.
  set (keys := if truthy _ then _ else []).
  assert (Hk : Forall (fun v => primitive v = true) keys).
  { unfold keys. destruct (truthy _); [apply keys_of_array_primitive|constructor]. }
  destruct (uniq_set keys (Lodash.baseUniq (explicit_types options)) Hk Hnd)
    as [Hnd' Hin'].
  split; [exact Hnd'|]. split.
  - intros x Hx. apply Hin'. left. apply Hin. now right.
  - intros x Hx. apply Hin' in Hx. destruct Hx as [Hx|Hx].
    + apply Hin in Hx. cbn in Hx. tauto.
    + right. unfold keys in Hx. destruct (truthy _); [|destruct Hx].
      apply keys_of_array_are_indices in Hx. destruct Hx as (i & Hi & ->).
      exists i. split; [|reflexivity].
      unfold Lodash.filter in Hi.
      pose proof (filter_length_le
                    (fun type => js_ge (prop type "level")
                                       (get options "logLevel"))
                    (Lodash.elements table)) as Hle.
      lia.
Qed.

(** X8: explicit types that are an array of distinct primitives lead the
    filter, in the order the options give them. *)
Theorem getLogFilter_keeps_explicit_order table options :
  filterable table options ->
  Forall (fun v => primitive v = true) (explicit_types options) ->
  NoDup (explicit_types options) ->
  exists added,
    LogsProcessor.getLogFilter table options
    = Ok (explicit_types options ++ added)%list.
Proof.
  intros Hf Hp Hnd. rewrite (getLogFilter_unfold table options Hf).
  unfold Lodash.baseUniq.
  rewrite (uniq_distinct (explicit_types options) [] Hp Hnd).
  destruct (uniq_extends
              (if truthy (get options "logLevel") then
                 Lodash.keys_of_array
                   (Lodash.filter table
                      (fun type => js_ge (prop type "level")
                                         (get options "logLevel")))
               else [])
              ([] ++ explicit_types options)%list) as [rest Hrest].
  exists rest. now rewrite Hrest.
Qed.

(** *** The time budget *)

(** X10: once the budget of a run is spent it stays spent: from a reading
    of the clock at which [hasTimeLeft] is false, it is false at every later
    reading; and it is true up to [(start + maxRunTimeSeconds) * 1000]. *)
Theorem hasTimeLeft_expires_for_good maxRunTimeSeconds start now later :
  LogsProcessor.hasTimeLeft maxRunTimeSeconds start now = false ->
  now <= later ->
  LogsProcessor.hasTimeLeft maxRunTimeSeconds start later = false
  /\ forall earlier,
      earlier <= (start + maxRunTimeSeconds) * 1000 ->
      LogsProcessor.hasTimeLeft maxRunTimeSeconds start earlier = true.
Proof.
  unfold LogsProcessor.hasTimeLeft. rewrite !Z.geb_leb.
  intros H Hle. apply Z.leb_gt in H. split.
  - apply Z.leb_gt. lia.
  - intros earlier He. rewrite Z.geb_leb. apply Z.leb_le. lia.
Qed.

(** X22: [start] is counted as seconds although it is read in
    milliseconds: with a start and a budget that are not negative, there is
    time left at every reading of the clock up to a thousand times the
    start, whatever the budget. *)
Theorem hasTimeLeft_scales_the_start maxRunTimeSeconds start now :
  0 <= start ->
  0 <= maxRunTimeSeconds ->
  now <= 1000 * start ->
  LogsProcessor.hasTimeLeft maxRunTimeSeconds start now = true.
Proof.
  intros Hs Hm Hn. unfold LogsProcessor.hasTimeLeft.
  rewrite Z.geb_leb. apply Z.leb_le. lia.
Qed.

End ProcessorFacts.

(** ** Counting the calls of a run *)

Section CallFacts.
Import Run.

Variable LogRecord : Type.
Implicit Types (calls : list (Effect LogRecord)) (e : Effect LogRecord).

Lemma ends_with_delivery_snoc calls e :
  ends_with_delivery (calls ++ [e]) = is_delivery e.
Proof. unfold ends_with_delivery. now rewrite rev_app_distr. Qed.

Lemma retried_cons e e' calls :
  retried (e :: e' :: calls)
  = ((if is_delivery e && is_delivery e' then 1 else 0)
     + retried (e' :: calls))%nat.
Proof. cbn. now destruct (is_delivery e && is_delivery e'). Qed.

Lemma retried_snoc calls e :
  retried (calls ++ [e])
  = (retried calls
     + if ends_with_delivery calls && is_delivery e then 1 else 0)%nat.
Proof.
  induction calls as [|a [|b rest] IH].
  - reflexivity.
  - cbn. destruct (is_delivery a && is_delivery e); reflexivity.
  - change ((a :: b :: rest) ++ [e])%list with (a :: b :: (rest ++ [e]))%list.
    rewrite !retried_cons.
    change (b :: (rest ++ [e]))%list with ((b :: rest) ++ [e])%list.
    rewrite IH.
    replace (ends_with_delivery (a :: b :: rest))
      with (ends_with_delivery (b :: rest)); [lia|].
    unfold ends_with_delivery. cbn [rev].
    destruct (rev rest ++ [b])%list eqn:E; [|reflexivity].
    destruct (rev rest); discriminate.
Qed.

Lemma retried_deliveries calls batch k :
  ends_with_delivery calls = false ->
  retried (calls ++ repeat (Delivered batch) (S k)) = (retried calls + k)%nat
  /\ ends_with_delivery (calls ++ repeat (Delivered batch) (S k)) = true.
Proof.
  intros Hend. induction k as [|k [IHr IHe]].
  - cbn [repeat]. rewrite retried_snoc, ends_with_delivery_snoc, Hend.
    cbn. split; [lia|reflexivity].
  - change (repeat (Delivered batch) (S (S k)))
      with (Delivered batch :: repeat (Delivered batch) (S k)).
    rewrite repeat_cons, app_assoc.
    rewrite retried_snoc, ends_with_delivery_snoc, IHr, IHe.
    cbn. split; [lia|reflexivity].
Qed.

Lemma retried_call calls e :
  is_delivery e = false ->
  retried (calls ++ [e]) = retried calls
  /\ ends_with_delivery (calls ++ [e]) = false.
Proof.
  intros He. rewrite retried_snoc, ends_with_delivery_snoc, He, andb_false_r.
  split; [lia|reflexivity].
Qed.

Lemma existsb_repeat (P : Effect LogRecord -> bool) e k :
  P e = false -> existsb P (repeat e k) = false.
Proof. intros He. induction k; cbn; [reflexivity|]. now rewrite He. Qed.

Lemma no_request_once_done_app closed calls calls' :
  no_request_once_done closed (calls ++ calls')
  = no_request_once_done closed calls
    && no_request_once_done (closed || existsb is_ended calls) calls'.
Proof.
  revert closed. induction calls as [|e calls IH]; intros closed; cbn.
  - now rewrite orb_false_r.
  - destruct e; cbn; rewrite ?IH, ?orb_true_r, ?andb_assoc; reflexivity.
Qed.

Lemma last_default {A : Type} (l : list A) d d' :
  l <> [] -> last l d = last l d'.
Proof.
  induction l as [|a [|b l] IH]; intros H; [congruence|reflexivity|].
  change (last (b :: l) d = last (b :: l) d'). apply IH. discriminate.
Qed.

Lemma last_app_default {A : Type} (l l' : list A) d :
  last (l ++ l') d = last l' (last l d).
Proof.
  induction l as [|a l IH]; [reflexivity|].
  destruct l as [|b l].
  - cbn. destruct l' as [|c l']; [reflexivity|].
    apply last_default. discriminate.
  - change (last ((b :: l) ++ l') d = last l' (last (b :: l) d)). exact IH.
Qed.

Lemma last_twice {A : Type} (l : list A) d : last l (last l d) = last l d.
Proof.
  destruct l as [|a l]; [reflexivity|]. apply last_default. discriminate.
Qed.

Lemma delivered_records_app calls calls' :
  delivered_records (calls ++ calls')
  = (delivered_records calls ++ delivered_records calls')%list.
Proof. apply flat_map_app. Qed.

(** The date of the last record handed over does not change when a batch
    is handed over again. *)
Lemma last_redelivered {B : Type} (f : LogRecord -> B) l batch k d :
  last (map f (l ++ delivered_records (repeat (Delivered batch) (S k))))%list d
  = last (map f (l ++ batch)%list) d.
Proof.
  revert l. induction k as [|k IH]; intros l.
  - cbn. now rewrite app_nil_r.
  - change (delivered_records (repeat (Delivered batch) (S (S k))))
      with (batch ++ delivered_records (repeat (Delivered batch) (S k)))%list.
    rewrite app_assoc, IH, !map_app, !last_app_default. apply last_twice.
Qed.

Lemma date_after_request {B : Type} (f : LogRecord -> B) calls e batch d :
  delivered e = None ->
  last (map f (delivered_records (calls ++ [e]) ++ batch)%list) d
  = last (map f (delivered_records calls ++ batch)%list) d.
Proof.
  intros He. rewrite delivered_records_app. cbn. rewrite He.
  now rewrite !app_nil_r.
Qed.

Lemma date_after_delivery {B : Type} (f : LogRecord -> B)
  calls batch k tail d :
  delivered_records tail = [] ->
  last (map f (delivered_records
                 (calls ++ repeat (Delivered batch) (S k) ++ tail)
               ++ [])%list) d
  = last (map f (delivered_records calls ++ batch)%list) d.
Proof.
  intros Ht. rewrite !delivered_records_app, Ht, !app_nil_r.
  apply last_redelivered.
Qed.

End CallFacts.

(** ** More on the run: what every settled run has done *)

Section RunInvariants.
Import Run.

Variable LogRecord : Type.
Variable SA : StreamApi LogRecord.
Variable HA : HandlerApi LogRecord.
Variable RT : Runtime LogRecord.
Variables batchSize maxRetries maxRunTimeSeconds : Z.

Local Abbreviation State := (Run.State LogRecord SA HA).
Local Abbreviation deliver := (deliver RT maxRetries maxRunTimeSeconds).
Local Abbreviation listen := (listen RT batchSize maxRetries maxRunTimeSeconds).
Local Abbreviation pump := (pump RT batchSize maxRetries maxRunTimeSeconds).
Local Abbreviation run := (run SA HA RT batchSize maxRetries maxRunTimeSeconds).
Local Abbreviation hasTimeLeft := (LogsProcessor.hasTimeLeft maxRunTimeSeconds).

Ltac state_fields :=
  cbn [now emit set_handler set_retries set_stream set_batch set_store
       stream handler ticks store start retries lastLogDate logsBatch trace
       fst snd] in *.

(** *** Invariants of the event loop *)

Lemma pump_invariant
  (Inv : StreamEvent LogRecord -> State -> Prop) (Q : Final LogRecord -> Prop) :
  (forall ev st, Inv ev st ->
     match listen ev st with
     | Settled f => Q f
     | Awaiting ev' st' => Inv ev' st'
     | Stuck => True
     end) ->
  forall fuel (r : Reaction LogRecord SA HA) f,
    pump fuel r = Some f ->
    match r with
    | Settled f' => Q f'
    | Awaiting ev st => Inv ev st
    | Stuck => True
    end ->
    Q f.
Proof.
  intros Hstep fuel. induction fuel as [|fuel IH]; intros [f'|ev st|] f;
    cbn [Run.pump]; try discriminate; try (intros [= <-]; auto).
  intros Hp HI. apply (IH _ _ Hp). apply Hstep, HI.
Qed.

Lemma run_invariant
  (Inv : StreamEvent LogRecord -> State -> Prop) (Q : Final LogRecord -> Prop)
  logTypes options storage handler fuel f :
  (forall ev st, Inv ev st ->
     match listen ev st with
     | Settled f => Q f
     | Awaiting ev' st' => Inv ev' st'
     | Stuck => True
     end) ->
  (forall s s' ev,
     next SA (getNextLimit batchSize
                (mkState s handler 1 storage (clock RT 0) 0 0 [] []))
          s = (s', ev) ->
     Inv ev (mkState s' handler 1 storage (clock RT 0) 0 0 []
               [Requested (getNextLimit batchSize
                  (mkState s handler 1 storage (clock RT 0) 0 0 [] []))])) ->
  (forall e, createStream SA logTypes storage options = Throw e ->
             Q (mkFinal (Rejected (Exn e)) storage [])) ->
  run logTypes options storage handler fuel = Some f ->
  Q f.
Proof.
  intros Hstep Hinit Hnone Hrun. unfold Run.run in Hrun.
  destruct (createStream SA logTypes storage options) as [s|e] eqn:Hcs;
    [|injection Hrun as <-; apply Hnone; reflexivity].
  unfold request, begin in Hrun. state_fields.
  destruct (next SA _ _) as [s' ev] eqn:Hn.
  apply (pump_invariant Inv Q Hstep _ _ _ Hrun).
  apply (Hinit _ _ _ Hn).
Qed.

(** The same for the states a run goes through. *)
Lemma after_invariant (Inv : StreamEvent LogRecord -> State -> Prop)
  n (r : Reaction LogRecord SA HA) ev st :
  (forall ev st, Inv ev st ->
     match listen ev st with
     | Awaiting ev' st' => Inv ev' st'
     | _ => True
     end) ->
  match r with
  | Awaiting ev st => Inv ev st
  | _ => True
  end ->
  after RT batchSize maxRetries maxRunTimeSeconds n r = Awaiting ev st ->
  Inv ev st.
Proof.
  intros Hstep Hr. revert ev st.
  induction n as [|n IH]; intros ev st; cbn [after].
  - intros ->. exact Hr.
  - destruct (after _ _ _ _ n r) as [f|ev0 st0|]; try discriminate.
    intros H. specialize (Hstep ev0 st0 (IH _ _ eq_refl)).
    rewrite H in Hstep. exact Hstep.
Qed.

Lemma after_settled n (r : Reaction LogRecord SA HA) :
  match r with
  | Awaiting _ _ => True
  | _ => after RT batchSize maxRetries maxRunTimeSeconds n r = r
  end.
Proof.
  destruct r as [f|ev st|]; [|exact I|]; induction n as [|n IH]; cbn [after];
    try reflexivity; now rewrite IH.
Qed.

Lemma after_shift n ev (st : State) :
  after RT batchSize maxRetries maxRunTimeSeconds (S n) (Awaiting ev st)
  = after RT batchSize maxRetries maxRunTimeSeconds n (listen ev st).
Proof.
  induction n as [|n IH]; [reflexivity|].
  change (after RT batchSize maxRetries maxRunTimeSeconds (S (S n))
                (Awaiting ev st))
    with (match after RT batchSize maxRetries maxRunTimeSeconds (S n)
                      (Awaiting ev st) with
          | Awaiting ev' st' => listen ev' st'
          | r' => r'
          end).
  rewrite IH. reflexivity.
Qed.

(** A run that waits for an event whose listener settles it is a run that
    settles: the event loop returns what the listener leaves. *)
Lemma pump_after n (r : Reaction LogRecord SA HA) ev (st : State) f :
  after RT batchSize maxRetries maxRunTimeSeconds n r = Awaiting ev st ->
  listen ev st = Settled f ->
  pump (S n) r = Some f.
Proof.
  revert r. induction n as [|n IH]; intros r Hr Hl.
  - cbn [after] in Hr. subst r. cbn [Run.pump]. rewrite Hl. reflexivity.
  - destruct r as [f0|ev0 st0|].
    + pose proof (after_settled (S n) (Settled f0)) as H. cbn beta iota in H.
      rewrite H in Hr. discriminate.
    + rewrite after_shift in Hr.
      change (pump (S (S n)) (Awaiting ev0 st0))
        with (pump (S n) (listen ev0 st0)).
      now apply IH.
    + pose proof (after_settled (S n) (@Stuck LogRecord SA HA)) as H.
      cbn beta iota in H. rewrite H in Hr. discriminate.
Qed.

Lemma awaits_settles logTypes options storage handler ev (st : State) f :
  awaits SA HA RT batchSize maxRetries maxRunTimeSeconds logTypes options storage handler ev st ->
  listen ev st = Settled f ->
  exists fuel, run logTypes options storage handler fuel = Some f.
Proof.
  intros (s & n & Hcs & Hn) Hl. exists (S n).
  unfold Run.run. rewrite Hcs. now apply (pump_after n _ ev st).
Qed.

(** *** What a delivery and a listener do *)

(** A batch whose deliveries fail one after the other, each within the
    budget, is delivered once and then once per retry the run has left;
    after that the run settles as failed with the skipped range. *)
Lemma deliver_skips_range batch n (st : State) :
  logsBatch st = batch ->
  n = Z.to_nat (maxRetries - retries st) ->
  fails_each HA n (handler st) batch ->
  (forall k, (ticks st <= k <= ticks st + n)%nat ->
             hasTimeLeft (start st) (clock RT k) = true) ->
  exists err (st' : State),
    truthy err = true
    /\ deliver n st =
       Concluded (runFailed
                    (VArr [VStr (skipping maxRetries
                                          (previousCheckpoint SA (stream st))
                                          (lastCheckpoint SA (stream st)));
                           err])
                    (status SA (stream st)) (lastCheckpoint SA (stream st)) st')
    /\ store st' = store st
    /\ trace st' = (trace st ++ repeat (Delivered batch) (S n))%list.
Proof.
  intros Hb. revert st Hb.
  induction n as [|n IH]; intros st Hb Hn [Herr Hnext] Hleft;
    rewrite deliver_eq; subst batch;
    destruct (onLogsReceived HA (handler st) (logsBatch st)) as [h err];
    cbn [fst snd] in Herr, Hnext; cbv zeta; rewrite Herr; state_fields;
    rewrite (Hleft (ticks st)) by lia;
    cbn [negb]; destruct (Z.ltb_spec (retries st) maxRetries); try lia.
  - exists err. eexists. split; [exact Herr|]. split; [reflexivity|].
    state_fields. split; reflexivity.
  - destruct (IH (set_retries (retries st + 1)
                    (mkState (stream st) h (S (ticks st)) (store st) (start st)
                             (retries st) (lastLogDate st) (logsBatch st)
                             (trace st ++ [Delivered (logsBatch st)])%list)))
      as (err' & st' & Ht & Hd & Hs & Htr); state_fields;
      try assumption; try reflexivity; try lia.
    + intros k Hk. apply Hleft. lia.
    + exists err', st'. split; [exact Ht|]. split; [exact Hd|].
      split; [exact Hs|]. rewrite Htr. apply repeat_snoc.
Qed.



(** An accepted delivery: the batch went to the handler once and once per
    retry, each retry counted, none beyond [maxRetries]; nothing else of the
    run changed but the handler and the clock. *)
Lemma deliver_accepted_shape n (st st' : State) :
  deliver n st = Accepted st' ->
  exists k,
    trace st' = (trace st ++ repeat (Delivered (logsBatch st)) (S k))%list
    /\ retries st' = retries st + Z.of_nat k
    /\ retries st' <= Z.max (retries st) maxRetries
    /\ stream st' = stream st /\ store st' = store st
    /\ start st' = start st /\ logsBatch st' = logsBatch st
    /\ lastLogDate st' = lastLogDate st.
Proof.
  revert st. induction n as [|n IH]; intros st; rewrite deliver_eq;
    destruct (onLogsReceived HA (handler st) (logsBatch st)) as [h err];
    cbv zeta; destruct (truthy err); state_fields;
    try (intros [= <-]; state_fields; exists 0%nat;
         repeat split; try reflexivity; lia);
    destruct (negb (hasTimeLeft (start st) (clock RT (ticks st))));
    try discriminate;
    destruct (Z.ltb_spec (retries st) maxRetries); try discriminate.
  intros Hd. apply IH in Hd. state_fields.
  destruct Hd as (k & Ht & Hr & Hb & Hs & Hst & Hsta & Hlb & Hll).
  exists (S k). rewrite Ht, repeat_snoc.
  repeat split; try assumption; lia.
Qed.

(** A delivery that settles the run: the batch went to the handler once
    and once per retry, each counted, none beyond [maxRetries], and then
    [runFailed] was called, with one of the two checkpoints of the
    stream. *)
Lemma deliver_concluded_shape n (st : State) f :
  deliver n st = Concluded f ->
  exists k (st1 : State) e c,
    f = runFailed e (status SA (stream st)) c st1
    /\ (c = previousCheckpoint SA (stream st)
        \/ c = lastCheckpoint SA (stream st))
    /\ store st1 = store st
    /\ trace st1 = (trace st ++ repeat (Delivered (logsBatch st)) (S k))%list
    /\ retries st1 = retries st + Z.of_nat k
    /\ retries st1 <= Z.max (retries st) maxRetries.
Proof.
  revert st. induction n as [|n IH]; intros st; rewrite deliver_eq;
    destruct (onLogsReceived HA (handler st) (logsBatch st)) as [h err];
    cbv zeta; destruct (truthy err); state_fields; try discriminate;
    (destruct (negb (hasTimeLeft (start st) (clock RT (ticks st))));
     [intros [= <-]; exists 0%nat; eexists; eexists; eexists;
      split; [reflexivity|]; state_fields;
      repeat split; try reflexivity; auto; lia|]);
    (destruct (Z.ltb_spec (retries st) maxRetries);
     [|intros [= <-]; exists 0%nat; eexists; eexists; eexists;
       split; [reflexivity|]; state_fields;
       repeat split; try reflexivity; auto; lia]);
    try discriminate.
  intros Hd. apply IH in Hd. state_fields.
  destruct Hd as (k & st1 & e & c & Hf & Hc & Hs & Ht & Hr & Hb).
  exists (S k), st1, e, c. rewrite Ht, repeat_snoc.
  repeat split; try assumption; lia.
Qed.

Lemma getNextLimit_is_min (st : State) :
  getNextLimit batchSize st
  = Z.min 100 (batchSize - Z.of_nat (List.length (logsBatch st))).
Proof.
  unfold getNextLimit.
  destruct (Z.gtb_spec (batchSize - Z.of_nat (List.length (logsBatch st))) 100);
    lia.
Qed.

(** Every way a listener can answer an event, with what it has called and
    what it has left of the run. *)
Lemma listen_shape ev (st : State) :
  match listen ev st with
  | Stuck => True
  | Settled f =>
      (exists err,
          ev = StreamError err
          /\ f = runFailed err (status SA (stream st))
                           (previousCheckpoint SA (stream st)) st)
      \/ (exists batch k (st1 : State) e c,
            (ev = End /\ batch = logsBatch st
             \/ exists logs,
                 ev = Data logs /\ batch = (logsBatch st ++ logs)%list
                 /\ batchSize <= Z.of_nat (List.length batch))
            /\ f = runFailed e (status SA (stream st)) c st1
            /\ (c = previousCheckpoint SA (stream st)
                \/ c = lastCheckpoint SA (stream st))
            /\ store st1 = store st
            /\ trace st1 = (trace st ++ repeat (Delivered batch) (S k))%list
            /\ retries st1 = retries st + Z.of_nat k
            /\ retries st1 <= Z.max (retries st) maxRetries)
      \/ (exists k (st2 : State),
            ev = End
            /\ f = runSuccess RT (status SA (stream st2))
                              (lastCheckpoint SA (stream st2)) st2
            /\ stream st2 = batchSaved SA (stream st)
            /\ store st2 = store st
            /\ lastLogDate st2 = lastLogDate st
            /\ trace st2 = (trace st
                            ++ repeat (Delivered (logsBatch st)) (S k)
                            ++ [Saved])%list
            /\ retries st2 = retries st + Z.of_nat k
            /\ retries st2 <= Z.max (retries st) maxRetries)
  | Awaiting ev' st' =>
      exists logs,
        ev = Data logs /\ store st' = store st /\ start st' = start st
        /\ ((Z.of_nat (List.length (logsBatch st ++ logs)) < batchSize
             /\ logsBatch st' = (logsBatch st ++ logs)%list
             /\ retries st' = retries st
             /\ trace st'
                = (trace st
                   ++ [Requested
                         (Z.min 100
                            (batchSize
                             - Z.of_nat (List.length (logsBatch st ++ logs))))])%list
             /\ next SA
                     (Z.min 100
                        (batchSize
                         - Z.of_nat (List.length (logsBatch st ++ logs))))
                     (stream st)
                = (stream st', ev'))
            \/ (batchSize <= Z.of_nat (List.length (logsBatch st ++ logs))
                /\ logsBatch st' = []
                /\ exists k,
                    retries st' = retries st + Z.of_nat k
                    /\ retries st' <= Z.max (retries st) maxRetries
                    /\ ((ev' = End
                         /\ stream st' = done SA (stream st)
                         /\ trace st'
                            = (trace st
                               ++ repeat (Delivered (logsBatch st ++ logs)) (S k)
                               ++ [Ended])%list)
                        \/ (trace st'
                            = (trace st
                               ++ repeat (Delivered (logsBatch st ++ logs)) (S k)
                               ++ [Saved; Requested (Z.min 100 batchSize)])%list
                            /\ next SA (Z.min 100 batchSize)
                                    (batchSaved SA (stream st))
                               = (stream st', ev')))))
  end.
Proof.
  destruct ev as [logs| |err]; cbn [Run.listen].
  - unfold Run.on_data.
    set (st1 := set_batch _ _ st).
    assert (Hb1 : logsBatch st1 = (logsBatch st ++ logs)%list) by reflexivity.
    assert (Ht1 : trace st1 = trace st) by reflexivity.
    assert (Hr1 : retries st1 = retries st) by reflexivity.
    assert (Hs1 : stream st1 = stream st) by reflexivity.
    assert (Hst1 : store st1 = store st) by reflexivity.
    assert (Hsta1 : start st1 = start st) by reflexivity.
    destruct (Z.ltb_spec (Z.of_nat (List.length (logsBatch st1))) batchSize)
      as [Hlt|Hge].
    + unfold request. rewrite getNextLimit_is_min.
      destruct (next SA _ (stream st1)) as [s ev'] eqn:Hn.
      exists logs. state_fields. rewrite Hb1 in *. rewrite Hs1 in Hn.
      repeat split; auto. left. repeat split; auto; congruence.
    + destruct (Run.deliver _ _ _ _ st1) as [st2|f|] eqn:Hd; [| |exact I].
      * apply deliver_accepted_shape in Hd.
        destruct Hd as (k & Ht & Hr & Hb & Hs & Hst & Hsta & Hlb & Hll).
        state_fields.
        destruct (negb _).
        -- exists logs. state_fields. rewrite Hb1 in *.
           repeat split; try congruence.
           right. split; [exact Hge|]. split; [reflexivity|].
           exists k. split; [congruence|]. split; [congruence|]. left.
           repeat split; try congruence.
           rewrite Ht, Ht1, <- app_assoc. reflexivity.
        -- unfold request. rewrite getNextLimit_is_min. state_fields.
           cbn [List.length Z.of_nat]. rewrite Z.sub_0_r.
           destruct (next SA _ _) as [s ev'] eqn:Hn.
           exists logs. state_fields. rewrite Hb1 in *. rewrite Hs, Hs1 in Hn.
           repeat split; try congruence.
           right. split; [exact Hge|]. split; [reflexivity|].
           exists k. split; [congruence|]. split; [congruence|]. right.
           split; [|exact Hn].
           rewrite Ht, Ht1, <- !app_assoc. reflexivity.
      * apply deliver_concluded_shape in Hd.
        destruct Hd as (k & st1' & e & c & Hf & Hc & Hs & Ht & Hr & Hb).
        right. left. exists (logsBatch st ++ logs)%list, k, st1', e, c.
        rewrite Hb1 in *.
        split; [right; exists logs; auto|].
        repeat split; try congruence.
  - unfold Run.on_end.
    destruct (Run.deliver _ _ _ _ st) as [st2|f|] eqn:Hd; [| |exact I].
    + apply deliver_accepted_shape in Hd.
      destruct Hd as (k & Ht & Hr & Hb & Hs & Hst & Hsta & Hlb & Hll).
      right. right. exists k. eexists. split; [reflexivity|].
      split; [reflexivity|]. state_fields.
      repeat split; try congruence.
      rewrite Ht, <- app_assoc. reflexivity.
    + apply deliver_concluded_shape in Hd.
      destruct Hd as (k & st1' & e & c & Hf & Hc & Hs & Ht & Hr & Hb).
      right. left. exists (logsBatch st), k, st1', e, c.
      split; [left; auto|]. repeat split; auto.
  - unfold on_error. left. exists err. auto.
Qed.

(** The date a listener leaves behind is the date of the last record of
    the event, the date it found when the event has none. *)
Lemma listen_dates ev (st : State) :
  match listen ev st with
  | Awaiting ev' st' =>
      exists logs,
        ev = Data logs
        /\ lastLogDate st' = last (map (record_time RT) logs) (lastLogDate st)
  | _ => True
  end.
Proof.
  destruct ev as [logs| |err]; cbn [Run.listen].
  - unfold Run.on_data.
    set (st1 := set_batch _ _ st).
    assert (Hd1 : lastLogDate st1
                  = last (map (record_time RT) logs) (lastLogDate st))
      by reflexivity.
    destruct (_ <? batchSize).
    + unfold request. destruct (next SA _ _) as [s ev'].
      exists logs. split; [reflexivity|exact Hd1].
    + destruct (Run.deliver _ _ _ _ st1) as [st2|f|] eqn:Hd; [|exact I|exact I].
      apply deliver_accepted_shape in Hd.
      destruct Hd as (k & _ & _ & _ & _ & _ & _ & _ & Hll).
      state_fields. destruct (negb _).
      * exists logs. split; [reflexivity|]. state_fields. congruence.
      * unfold request. destruct (next SA _ _) as [s ev'].
        exists logs. split; [reflexivity|]. state_fields. congruence.
  - unfold Run.on_end. destruct (Run.deliver _ _ _ _ st); exact I.
  - exact I.
Qed.

(** *** How a run settles *)

Lemma runSuccess_shape status checkpoint (st : State) :
  (js_gt (get status "logsProcessed") (VNum 0) = false
   /\ runSuccess RT status checkpoint st
      = mkFinal (Resolved status checkpoint) (store st) (trace st))
  \/ (js_gt (get status "logsProcessed") (VNum 0) = true
      /\ exists status_w,
          (forall k, k <> "warning" -> get status_w k = get status k)
          /\ effects (runSuccess RT status checkpoint st)
             = (trace st ++ [Persisted status_w checkpoint])%list
          /\ match Auth0Storage.done (store st) status_w checkpoint with
             | Ok (s', store') =>
                 outcome (runSuccess RT status checkpoint st)
                 = Resolved s' checkpoint
                 /\ final_store (runSuccess RT status checkpoint st) = store'
             | Throw e =>
                 outcome (runSuccess RT status checkpoint st) = Rejected (Exn e)
                 /\ final_store (runSuccess RT status checkpoint st) = store st
             end).
Proof.
  unfold runSuccess.
  destruct (js_gt (get status "logsProcessed") (VNum 0)); [right|left; auto].
  split; [reflexivity|]. state_fields.
  match goal with |- context [if ?c then set status "warning" ?w else status] =>
    exists (if c then set status "warning" w else status)
  end.
  split.
  - intros k Hk. destruct (_ >=? week); [|reflexivity].
    apply get_set_other. congruence.
  - destruct (Auth0Storage.done _ _ _) as [[s' a]|e]; cbn; auto.
Qed.

Lemma run_conclusion logTypes options storage handler fuel f :
  run logTypes options storage handler fuel = Some f ->
  concluded storage
    (fun x => createStream SA logTypes storage options = Throw x) f.
Proof.
  apply (run_invariant (fun _ st => quiet storage st)
           (concluded storage
              (fun x => createStream SA logTypes storage options = Throw x))).
  - intros ev st [Hs Ht]. pose proof (listen_shape ev st) as H.
    destruct (listen ev st) as [f'|ev' st'|]; [| |exact I].
    + destruct H as [(err & _ & ->)
                    |[(batch & k & st1 & e & c & _ & -> & _ & Hs1 & Ht1 & _)
                    |(k & st2 & _ & -> & _ & Hs2 & _ & Ht2 & _)]].
      * exists (trace st). split; [exact Ht|]. right.
        eexists. eexists. split; [apply runFailed_effects|].
        pose proof (runFailed_settles _ _ _ err (status SA (stream st))
                      (previousCheckpoint SA (stream st)) st) as Hr.
        rewrite Hs in Hr. rewrite get_set_same.
        destruct (Auth0Storage.done storage _ _) as [[s' a]|x]; tauto.
      * exists (trace st1). split.
        { rewrite Ht1, existsb_app, Ht. now apply existsb_repeat. }
        right. eexists. eexists. split; [apply runFailed_effects|].
        pose proof (runFailed_settles _ _ _ e (status SA (stream st)) c st1) as Hr.
        rewrite Hs1, Hs in Hr. rewrite get_set_same.
        destruct (Auth0Storage.done storage _ _) as [[s' a]|x]; tauto.
      * assert (Hq : existsb is_persist (trace st2) = false).
        { rewrite Ht2, !existsb_app, Ht, existsb_repeat by reflexivity.
          reflexivity. }
        exists (trace st2). split; [exact Hq|].
        destruct (runSuccess_shape (status SA (stream st2))
                    (lastCheckpoint SA (stream st2)) st2)
          as [[Hz ->]|(Hpos & sw & Hsame & Heff & Hdone)].
        -- left. cbn. rewrite Hs2, Hs. split; [reflexivity|].
           split; [reflexivity|]. left. eauto.
        -- right. exists sw, (lastCheckpoint SA (stream st2)).
           split; [exact Heff|]. rewrite Hs2, Hs in Hdone.
           rewrite (Hsame "logsProcessed") by discriminate.
           destruct (Auth0Storage.done storage _ _) as [[s' a]|x]; tauto.
    + destruct H as (logs & _ & Hs' & _ & H). split; [congruence|].
      destruct H as [(_ & _ & _ & -> & _)
                    |(_ & _ & k & _ & _ & [(_ & _ & ->)|(-> & _)])];
        rewrite !existsb_app, Ht, ?existsb_repeat by reflexivity; reflexivity.
  - intros s s' ev _. split; reflexivity.
  - intros e He. exists []. split; [reflexivity|]. left. cbn. eauto 8.
Qed.

(** X11: in every settled run [done] is the last call and is called once;
    only a run that resolves with no record processed, and a run that is
    rejected before it has a stream (by the exception of [createStream]),
    never call it, and that one has called nothing at all. *)
Theorem done_is_the_last_call logTypes options storage handler fuel f :
  run logTypes options storage handler fuel = Some f ->
  exists calls,
    existsb is_persist calls = false
    /\ match outcome f with
       | Resolved s c =>
           if js_gt (get s "logsProcessed") (VNum 0)
           then exists s0, effects f = (calls ++ [Persisted s0 c])%list
           else effects f = calls
       | Rejected r =>
           (exists s c, effects f = (calls ++ [Persisted s c])%list)
           \/ (effects f = []
               /\ exists x,
                   r = Exn x
                   /\ createStream SA logTypes storage options = Throw x)
       end.
Proof.
  intros Hrun. destruct (run_conclusion _ _ _ _ _ _ Hrun)
    as (calls & Hq & [(He & _ & [(s & c & -> & Hz)|(-> & x & -> & Hx)])
                     |(s & c & He & Hd)]).
  - exists calls. split; [exact Hq|]. now rewrite Hz.
  - exists []. split; [reflexivity|]. right. eauto.
  - exists calls. split; [exact Hq|].
    destruct (Auth0Storage.done storage s c) as [[s' a]|x] eqn:Hdone.
    + destruct Hd as [_ [[-> Hpos]| ->]]; [|eauto].
      apply done_appends in Hdone. destruct Hdone as (-> & _).
      rewrite get_set_other by discriminate. rewrite Hpos. eauto.
    + destruct Hd as [_ ->]. eauto.
Qed.

(** X12: a run that resolves with a record processed has persisted what it
    resolves with: the status carries the checkpoint, it is the last entry
    of the history in the document, and the checkpoint is the
    [checkpointId] there. *)
Theorem resolved_run_is_persisted
  logTypes options storage handler fuel f s c :
  run logTypes options storage handler fuel = Some f ->
  outcome f = Resolved s c ->
  js_gt (get s "logsProcessed") (VNum 0) = true ->
  get s "checkpoint" = c
  /\ exists data kept,
      Auth0Storage.storage (final_store f) = Some data
      /\ get data "logs" = VArr (kept ++ [VObj s])%list
      /\ get data "checkpointId" = c.
Proof.
  intros Hrun Ho Hpos. destruct (run_conclusion _ _ _ _ _ _ Hrun)
    as (calls & Hq & [(_ & _ & [(s1 & c1 & Ho1 & Hz)|(_ & x & Ho1 & _)])
                     |(s1 & c1 & He & Hd)]).
  - congruence.
  - congruence.
  - destruct (Auth0Storage.done storage s1 c1) as [[s' a]|x] eqn:Hdone.
    + destruct Hd as [Hf [[Ho1 _]|Ho1]]; [|congruence].
      rewrite Ho in Ho1. injection Ho1 as -> ->.
      apply done_appends in Hdone.
      destruct Hdone as (Hs' & _ & data & kept & Hst & Hl & Hc).
      split; [rewrite Hs'; apply get_set_same|].
      exists data, kept. rewrite Hf. auto.
    + destruct Hd as [_ Ho1]. congruence.
Qed.

(** X13: a rejected run whose last call, the [done], was fulfilled is
    rejected with the error it has recorded: the error of the status that
    went to [done], which is the last entry of the history in the document
    [done] has written, beside the checkpoint that is the [checkpointId]
    there. *)
Theorem rejected_run_is_recorded
  logTypes options storage handler fuel f r calls s c s' store' :
  run logTypes options storage handler fuel = Some f ->
  outcome f = Rejected r ->
  effects f = (calls ++ [Persisted s c])%list ->
  Auth0Storage.done storage s c = Ok (s', store') ->
  r = Value (get s "error")
  /\ final_store f = store'
  /\ exists data kept,
      Auth0Storage.storage store' = Some data
      /\ get data "logs" = VArr (kept ++ [VObj s'])%list
      /\ get s' "error" = get s "error"
      /\ get s' "checkpoint" = c
      /\ get data "checkpointId" = c.
Proof.
  intros Hrun Ho Heff Hdone. destruct (run_conclusion _ _ _ _ _ _ Hrun)
    as (calls1 & Hq & [(He & _)|(s1 & c1 & He & Hd)]).
  - rewrite Heff in He. rewrite <- He, existsb_app in Hq. cbn in Hq.
    rewrite orb_true_r in Hq. discriminate.
  - rewrite Heff in He. apply app_inj_tail in He.
    destruct He as [_ [= <- <-]]. rewrite Hdone in Hd.
    destruct Hd as [Hf [[Ho1 _]|Ho1]]; [congruence|].
    rewrite Ho in Ho1. injection Ho1 as ->.
    apply done_appends in Hdone.
    destruct Hdone as (Hs' & _ & data & kept & Hst & Hl & Hc).
    split; [reflexivity|]. split; [exact Hf|].
    exists data, kept. repeat split; auto.
    + rewrite Hs'. apply get_set_other. discriminate.
    + rewrite Hs'. apply get_set_same.
Qed.

(** *** The calls of a run *)

Lemma Forall_snoc {A : Type} (P : A -> Prop) (l : list A) (x : A) :
  Forall P l -> P x -> Forall P (l ++ [x]).
Proof. intros Hl Hx. apply Forall_app. auto. Qed.

Lemma Forall_repeat {A : Type} (P : A -> Prop) (x : A) (k : nat) :
  P x -> Forall P (repeat x k).
Proof. intros Hx. induction k; cbn; auto. Qed.

(** The calls of a settled run are those of the state its last listener
    found, deliveries of one batch, and calls that are neither a request
    nor a delivery. *)
Lemma settled_calls ev (st : State) f :
  listen ev st = Settled f ->
  exists batch k tail,
    effects f = (trace st ++ repeat (Delivered batch) k ++ tail)%list
    /\ (k = 0%nat \/ ev = End /\ batch = logsBatch st
        \/ exists logs, ev = Data logs /\ batch = (logsBatch st ++ logs)%list)
    /\ Forall (fun e => requested e = None /\ delivered e = None
                        /\ is_ended e = false) tail.
Proof.
  intros Hl. pose proof (listen_shape ev st) as H. rewrite Hl in H.
  assert (Hp : forall s c,
             Forall (fun e : Effect LogRecord =>
                       requested e = None /\ delivered e = None
                       /\ is_ended e = false) [Persisted s c]).
  { repeat constructor. }
  destruct H as [(err & _ & ->)
                |[(batch & k & st1 & e & c & Hb & -> & _ & _ & Ht1 & _)
                |(k & st2 & -> & -> & _ & _ & _ & Ht2 & _)]].
  - exists (logsBatch st), 0%nat. eexists. rewrite runFailed_effects.
    split; [reflexivity|]. split; [auto|apply Hp].
  - exists batch, (S k). eexists. rewrite runFailed_effects, Ht1, <- app_assoc.
    split; [reflexivity|]. split; [|apply Hp].
    right. destruct Hb as [[-> ->]|(logs & -> & -> & _)]; eauto.
  - exists (logsBatch st), (S k).
    destruct (runSuccess_shape (status SA (stream st2))
                (lastCheckpoint SA (stream st2)) st2)
      as [[_ ->]|(_ & sw & _ & -> & _)]; cbn [effects]; rewrite Ht2.
    + exists [Saved]. split; [reflexivity|]. split; [auto|].
      repeat constructor.
    + eexists. rewrite <- !app_assoc. split; [reflexivity|]. split; [auto|].
      repeat constructor.
Qed.

(** X14: with a batch size of at least 1, every page a run asks for is of
    1 to 100 records and of no more than the batch size. *)
Theorem requests_are_within_bounds
  logTypes options storage handler fuel f limit :
  1 <= batchSize ->
  run logTypes options storage handler fuel = Some f ->
  In (Requested limit) (effects f) ->
  1 <= limit <= 100 /\ limit <= batchSize.
Proof.
  intros Hb Hrun Hin.
  set (ok := fun e : Effect LogRecord =>
               match requested e with
               | Some l => 1 <= l <= 100 /\ l <= batchSize
               | None => True
               end).
  assert (HQ : Forall ok (effects f)).
  { revert Hrun.
    apply (run_invariant (fun _ st => Forall ok (trace st))
                         (fun f => Forall ok (effects f))).
    - intros ev st Hok. pose proof (listen_shape ev st) as H.
      destruct (listen ev st) as [f'|ev' st'|] eqn:Hl; [| |exact I].
      + destruct (settled_calls ev st f' Hl) as (batch & k & tail & -> & _ & Ht).
        apply Forall_app. split; [exact Hok|]. apply Forall_app. split.
        * apply Forall_repeat. exact I.
        * eapply Forall_impl; [|exact Ht]. intros e [He _]. unfold ok.
          now rewrite He.
      + destruct H as (logs & _ & _ & _ & H).
        destruct H as [(Hlt & _ & _ & -> & _)
                      |(_ & _ & k & _ & _ & [(_ & _ & ->)|(-> & _)])].
        * apply Forall_snoc; [exact Hok|]. unfold ok. cbn. lia.
        * apply Forall_app. split; [exact Hok|]. apply Forall_app. split.
          -- apply Forall_repeat. exact I.
          -- constructor; [exact I|constructor].
        * apply Forall_app. split; [exact Hok|]. apply Forall_app. split.
          -- apply Forall_repeat. exact I.
          -- constructor; [exact I|]. constructor; [|constructor].
             unfold ok. cbn. lia.
    - intros s s' ev _. state_fields. constructor; [|constructor].
      unfold ok. cbn [requested]. rewrite getNextLimit_is_min. cbn. lia.
    - intros e _. constructor. }
  rewrite Forall_forall in HQ. exact (HQ _ Hin).
Qed.

(** X15: from a stream that gives no more records than asked for, with a
    batch size of at least 1, no batch of more records than the batch size
    is ever delivered. *)
Theorem batches_are_within_batch_size
  logTypes options storage handler fuel f batch :
  1 <= batchSize ->
  honours_limit SA ->
  run logTypes options storage handler fuel = Some f ->
  In (Delivered batch) (effects f) ->
  Z.of_nat (List.length batch) <= batchSize.
Proof.
  intros Hb Hlim Hrun Hin.
  set (ok := fun e : Effect LogRecord =>
               match delivered e with
               | Some b => Z.of_nat (List.length b) <= batchSize
               | None => True
               end).
  set (Inv := fun (ev : StreamEvent LogRecord) (st : State) =>
                Z.of_nat (List.length (logsBatch st)) < batchSize
                /\ (forall logs, ev = Data logs ->
                      Z.of_nat (List.length (logsBatch st ++ logs)) <= batchSize)
                /\ Forall ok (trace st)).
  assert (HQ : Forall ok (effects f)).
  { revert Hrun.
    apply (run_invariant Inv (fun f => Forall ok (effects f))).
    - intros ev st (Hlen & Hpage & Hok). pose proof (listen_shape ev st) as H.
      destruct (listen ev st) as [f'|ev' st'|] eqn:Hl; [| |exact I].
      + destruct (settled_calls ev st f' Hl)
          as (batch' & k & tail & -> & Hbatch & Ht).
        apply Forall_app. split; [exact Hok|]. apply Forall_app. split.
        * destruct Hbatch as [->|[[_ ->]|(logs & Hev & ->)]].
          -- constructor.
          -- apply Forall_repeat. unfold ok. cbn. lia.
          -- apply Forall_repeat. unfold ok. cbn. now apply Hpage.
        * eapply Forall_impl; [|exact Ht]. intros e (_ & He & _). unfold ok.
          now rewrite He.
      + destruct H as (logs & Hev & _ & _ & H).
        specialize (Hpage logs Hev).
        destruct H as [(Hlt & Hb' & _ & Ht & Hn)
                      |(_ & Hb' & k & _ & _ & [(-> & _ & Ht)|(Ht & Hn)])];
          unfold Inv; rewrite Hb', Ht.
        * split; [exact Hlt|]. split.
          -- intros logs' ->. apply Hlim in Hn; [|lia].
             rewrite (length_app (logsBatch st ++ logs) logs'). lia.
          -- apply Forall_snoc; [exact Hok|exact I].
        * split; [cbn; lia|]. split.
          -- intros logs' Hd. discriminate Hd.
          -- apply Forall_app. split; [exact Hok|]. apply Forall_app. split.
             ++ apply Forall_repeat. exact Hpage.
             ++ constructor; [exact I|constructor].
        * split; [cbn; lia|]. split.
          -- intros logs' ->. apply Hlim in Hn; [|lia]. cbn. lia.
          -- apply Forall_app. split; [exact Hok|]. apply Forall_app. split.
             ++ apply Forall_repeat. exact Hpage.
             ++ constructor; [exact I|]. constructor; [exact I|constructor].
    - intros s s' ev Hn. unfold Inv. state_fields.
      rewrite getNextLimit_is_min in Hn. state_fields. cbn in Hn.
      split; [cbn; lia|]. split.
      + intros logs ->. apply Hlim in Hn; [|lia]. cbn. lia.
      + constructor; [exact I|constructor].
    - intros e _. constructor. }
  rewrite Forall_forall in HQ. exact (HQ _ Hin).
Qed.

(** X16: a settled run has made at most [maxRetries] retries, all its
    batches taken together (and none when [maxRetries] is negative). *)
Theorem retries_are_within_maxRetries logTypes options storage handler fuel f :
  run logTypes options storage handler fuel = Some f ->
  Z.of_nat (retried (effects f)) <= Z.max 0 maxRetries.
Proof.
  set (Inv := fun (ev : StreamEvent LogRecord) (st : State) =>
                retries st = Z.of_nat (retried (trace st))
                /\ ends_with_delivery (trace st) = false
                /\ retries st <= Z.max 0 maxRetries).
  apply (run_invariant Inv
           (fun f => Z.of_nat (retried (effects f)) <= Z.max 0 maxRetries)).
  - intros ev st (Hr & He & Hm). pose proof (listen_shape ev st) as H.
    destruct (listen ev st) as [f'|ev' st'|]; [| |exact I].
    + destruct H as [(err & _ & ->)
                    |[(batch & k & st1 & e & c & _ & -> & _ & _ & Ht1 & Hr1 & Hm1)
                    |(k & st2 & _ & -> & _ & _ & _ & Ht2 & Hr2 & Hm2)]].
      * rewrite runFailed_effects.
        destruct (retried_call LogRecord (trace st)
                    (Persisted (set (status SA (stream st)) "error" err)
                               (previousCheckpoint SA (stream st))) eq_refl)
          as [-> _]. lia.
      * rewrite runFailed_effects, Ht1.
        destruct (retried_deliveries LogRecord (trace st) batch k He)
          as [Hk _].
        match goal with |- context [retried (?l ++ [?x])] =>
          destruct (retried_call LogRecord l x eq_refl) as [-> _]
        end. rewrite Hk. lia.
      * destruct (retried_deliveries LogRecord (trace st) (logsBatch st) k He)
          as [Hk _].
        assert (Hs2 : retried (trace st2) = (retried (trace st) + k)%nat).
        { rewrite Ht2, app_assoc.
          match goal with |- context [retried (?l ++ [?x])] =>
            destruct (retried_call LogRecord l x eq_refl) as [-> _]
          end. exact Hk. }
        destruct (runSuccess_shape (status SA (stream st2))
                    (lastCheckpoint SA (stream st2)) st2)
          as [[_ ->]|(_ & sw & _ & -> & _)]; cbn [effects].
        -- rewrite Hs2. lia.
        -- match goal with |- context [retried (?l ++ [?x])] =>
             destruct (retried_call LogRecord l x eq_refl) as [-> _]
           end. rewrite Hs2. lia.
    + destruct H as (logs & _ & _ & _ & H). unfold Inv.
      destruct H as [(_ & _ & -> & -> & _)
                    |(_ & _ & k & -> & Hm' & [(_ & _ & ->)|(-> & _)])].
      * match goal with |- context [retried (?l ++ [?x])] =>
          destruct (retried_call LogRecord l x eq_refl) as [-> ->]
        end. auto.
      * destruct (retried_deliveries LogRecord (trace st)
                    (logsBatch st ++ logs)%list k He) as [Hk _].
        rewrite app_assoc.
        match goal with |- context [retried (?l ++ [?x])] =>
          destruct (retried_call LogRecord l x eq_refl) as [-> ->]
        end. rewrite Hk. repeat split; lia.
      * destruct (retried_deliveries LogRecord (trace st)
                    (logsBatch st ++ logs)%list k He) as [Hk _].
        match goal with |- context [(?a ++ ?r ++ [Saved; ?q])%list] =>
          replace (a ++ r ++ [Saved; q])%list
            with (((a ++ r) ++ [Saved]) ++ [q])%list
            by (now rewrite <- !app_assoc)
        end.
        match goal with |- context [retried (?l ++ [?x])] =>
          destruct (retried_call LogRecord l x eq_refl) as [-> ->]
        end.
        match goal with |- context [retried (?l ++ [?x])] =>
          destruct (retried_call LogRecord l x eq_refl) as [-> _]
        end. rewrite Hk. repeat split; lia.
  - intros s s' ev _. unfold Inv. state_fields. cbn. repeat split; lia.
  - intros e _. cbn. lia.
Qed.

Lemma no_request_in (calls : list (Effect LogRecord)) closed :
  Forall (fun e => requested e = None /\ is_ended e = false) calls ->
  no_request_once_done closed calls = true.
Proof.
  induction 1 as [|e calls [He Hn] _ IH]; cbn; [reflexivity|].
  destruct e; try discriminate; exact IH.
Qed.

Lemma no_request_after (calls : list (Effect LogRecord)) limit :
  no_request_once_done true calls = true -> ~ In (Requested limit) calls.
Proof.
  induction calls as [|e calls IH]; cbn [In]; [tauto|].
  intros H [Heq|Hin].
  - subst e. discriminate H.
  - destruct e; cbn in H; try discriminate H; now apply IH.
Qed.

(** X17: once a run has told the stream it is done, which it does when the
    budget is spent after an accepted batch, it asks for no further page. *)
Theorem no_request_after_done
  logTypes options storage handler fuel f before after limit :
  run logTypes options storage handler fuel = Some f ->
  effects f = (before ++ Ended :: after)%list ->
  ~ In (Requested limit) after.
Proof.
  intros Hrun Heff.
  assert (HQ : no_request_once_done false (effects f) = true).
  { revert Hrun.
    set (Inv := fun (ev : StreamEvent LogRecord) (st : State) =>
                  no_request_once_done false (trace st) = true
                  /\ (existsb is_ended (trace st) = true -> ev = End)).
    apply (run_invariant Inv
             (fun f => no_request_once_done false (effects f) = true)).
    - intros ev st (Hok & Hend). pose proof (listen_shape ev st) as H.
      destruct (listen ev st) as [f'|ev' st'|] eqn:Hl; [| |exact I].
      + destruct (settled_calls ev st f' Hl) as (batch & k & tail & -> & _ & Ht).
        rewrite !no_request_once_done_app, Hok. cbn [andb].
        rewrite !no_request_in; [reflexivity| |].
        * eapply Forall_impl; [|exact Ht]. tauto.
        * apply Forall_repeat. auto.
      + destruct H as (logs & Hev & _ & _ & H).
        assert (Hopen : existsb is_ended (trace st) = false).
        { destruct (existsb is_ended (trace st)); [|reflexivity].
          specialize (Hend eq_refl). congruence. }
        unfold Inv.
        destruct H as [(_ & _ & _ & -> & _)
                      |(_ & _ & k & _ & _ & [(-> & _ & ->)|(-> & _)])];
          rewrite !no_request_once_done_app, !existsb_app, Hok, Hopen,
            ?existsb_repeat by reflexivity;
          rewrite ?no_request_in by (apply Forall_repeat; auto);
          cbn; split; auto; discriminate.
    - intros s s' ev _. unfold Inv. state_fields. cbn. split; [reflexivity|].
      discriminate.
    - reflexivity. }
  rewrite Heff, no_request_once_done_app in HQ.
  apply andb_prop in HQ. destruct HQ as [_ HQ]. cbn in HQ.
  now apply no_request_after.
Qed.

(** X18: an error of the stream settles the run at once, whatever it holds
    and has retried: nothing is delivered, the status with the error goes
    to [done] with [previousCheckpoint], and the run is rejected, with the
    error of the stream once [done] has persisted that checkpoint, with
    the error of [done] otherwise. *)
Theorem stream_error_fails_the_run err (st : State) :
  exists f,
    listen (StreamError err) st = Settled f
    /\ effects f =
       (trace st ++ [Persisted (set (status SA (stream st)) "error" err)
                               (previousCheckpoint SA (stream st))])%list
    /\ match Auth0Storage.done (store st)
                 (set (status SA (stream st)) "error" err)
                 (previousCheckpoint SA (stream st)) with
       | Ok (_, store') =>
           outcome f = Rejected (Value err)
           /\ final_store f = store'
           /\ persisted_checkpoint store' = previousCheckpoint SA (stream st)
       | Throw e =>
           outcome f = Rejected (Exn e) /\ final_store f = store st
       end.
Proof.
  eexists. split; [reflexivity|]. split; [apply runFailed_effects|].
  pose proof (runFailed_settles _ _ _ err (status SA (stream st))
                (previousCheckpoint SA (stream st)) st) as Hs.
  destruct (Auth0Storage.done (store st) _ _) as [[s' a]|e] eqn:Hd.
  - destruct Hs as [Ho Hf]. repeat split; try assumption.
    now apply done_persists_checkpoint in Hd.
  - exact Hs.
Qed.

(** X20: a run resolves only after a last delivery that the handler
    accepted and that was acknowledged to the stream: the calls of a
    resolved run end with deliveries of one batch (be it empty), the
    acknowledgement, and the [done] if there is one. *)
Theorem resolved_run_delivered_last
  logTypes options storage handler fuel f s c :
  run logTypes options storage handler fuel = Some f ->
  outcome f = Resolved s c ->
  exists before batch k tail,
    effects f
    = (before ++ repeat (Delivered batch) (S k) ++ Saved :: tail)%list
    /\ (tail = [] \/ exists s0, tail = [Persisted s0 c]).
Proof.
  intros Hrun. revert s c. revert Hrun.
  apply (run_invariant (fun _ _ => True)
           (fun f => forall s c, outcome f = Resolved s c ->
              exists before batch k tail,
                effects f
                = (before ++ repeat (Delivered batch) (S k) ++ Saved :: tail)%list
                /\ (tail = [] \/ exists s0, tail = [Persisted s0 c]))).
  - intros ev st _. pose proof (listen_shape ev st) as H.
    destruct (listen ev st) as [f'|ev' st'|]; [|exact I|exact I].
    intros s c Ho.
    destruct H as [(err & _ & ->)
                  |[(batch & k & st1 & e & c1 & _ & -> & _)
                  |(k & st2 & _ & -> & _ & _ & _ & Ht2 & _)]].
    + destruct (runFailed_rejected _ _ _ err (status SA (stream st))
                  (previousCheckpoint SA (stream st)) st) as [r Hr].
      congruence.
    + destruct (runFailed_rejected _ _ _ e (status SA (stream st)) c1 st1)
        as [r Hr]. congruence.
    + exists (trace st), (logsBatch st), k.
      destruct (runSuccess_shape (status SA (stream st2))
                  (lastCheckpoint SA (stream st2)) st2)
        as [[_ Hf]|(_ & sw & _ & Heff & Hd)].
      * rewrite Hf. cbn [effects]. exists []. split; [exact Ht2|auto].
      * exists [Persisted sw (lastCheckpoint SA (stream st2))].
        rewrite Heff, Ht2, <- !app_assoc. split; [reflexivity|]. right.
        destruct (Auth0Storage.done _ _ _) as [[s' a]|x].
        -- destruct Hd as [Ho' _]. rewrite Ho in Ho'. injection Ho' as _ ->.
           eauto.
        -- destruct Hd as [Ho' _]. congruence.
  - auto.
  - intros e _ s c Ho. discriminate Ho.
Qed.

(** X21: a batch that the handler accepts, at once or on a retry, went to
    it unchanged each time; each failure before cost the run one retry,
    none beyond [maxRetries]; the run goes on with the same batch, stream
    and storage, its count of retries raised and never reset. *)
Theorem accepted_batch_costs_its_retries n (st st' : State) :
  deliver n st = Accepted st' ->
  exists k,
    trace st' = (trace st ++ repeat (Delivered (logsBatch st)) (S k))%list
    /\ retries st' = retries st + Z.of_nat k
    /\ retries st' <= Z.max (retries st) maxRetries
    /\ logsBatch st' = logsBatch st
    /\ stream st' = stream st /\ store st' = store st.
Proof.
  intros Hd. apply deliver_accepted_shape in Hd.
  destruct Hd as (k & Ht & Hr & Hb & Hs & Hst & _ & Hlb & _).
  exists k. auto 10.
Qed.

(** *** Runs in flight *)

Local Abbreviation awaits :=
  (awaits SA HA RT batchSize maxRetries maxRunTimeSeconds).

(** What the closure of a run holds while the run waits for an event: the
    storage and the start it began with, as many retries as its calls show,
    and the date of the last record it has received, 0 before the first. *)
Lemma awaits_facts logTypes options storage handler ev (st : State) :
  awaits logTypes options storage handler ev st ->
  store st = storage
  /\ start st = clock RT 0
  /\ retries st = Z.of_nat (retried (trace st))
  /\ ends_with_delivery (trace st) = false
  /\ retries st <= Z.max 0 maxRetries
  /\ lastLogDate st
     = last (map (record_time RT)
                 (delivered_records (trace st) ++ logsBatch st)%list) 0.
Proof.
  intros (s & n & _ & Hn). revert Hn.
  apply (after_invariant
           (fun (_ : StreamEvent LogRecord) (st : State) =>
              store st = storage
              /\ start st = clock RT 0
              /\ retries st = Z.of_nat (retried (trace st))
              /\ ends_with_delivery (trace st) = false
              /\ retries st <= Z.max 0 maxRetries
              /\ lastLogDate st
                 = last (map (record_time RT)
                             (delivered_records (trace st) ++ logsBatch st)%list)
                        0)).
  - clear. intros ev st (Hs & Hst & Hr & He & Hm & Hd).
    pose proof (listen_shape ev st) as H.
    pose proof (listen_dates ev st) as Hdate.
    destruct (listen ev st) as [f'|ev' st'|]; [exact I| |exact I].
    destruct H as (logs & Hev & Hs' & Hst' & H).
    destruct Hdate as (logs' & Hev' & Hdate).
    rewrite Hev in Hev'. injection Hev' as <-.
    split; [congruence|]. split; [congruence|].
    assert (Hjoin : forall l : list LogRecord,
               last (map (record_time RT) logs)
                    (last (map (record_time RT) (l ++ logsBatch st)%list) 0)
               = last (map (record_time RT)
                           (l ++ logsBatch st ++ logs)%list) 0).
    { intros l. now rewrite (app_assoc l), (map_app _ (l ++ logsBatch st)%list),
                  last_app_default. }
    destruct H as [(_ & Hb & Hr' & Ht & _)
                  |(_ & Hb & k & Hr' & Hm' & [(_ & _ & Ht)|(Ht & _)])].
    + destruct (retried_call LogRecord (trace st)
                  (Requested
                     (Z.min 100
                        (batchSize
                         - Z.of_nat (List.length (logsBatch st ++ logs)))))
                  eq_refl) as [Hrc Hec].
      rewrite Ht. repeat split.
      * rewrite Hrc. congruence.
      * exact Hec.
      * congruence.
      * rewrite Hdate, Hd, Hb, date_after_request by reflexivity. apply Hjoin.
    + destruct (retried_deliveries LogRecord (trace st)
                  (logsBatch st ++ logs)%list k He) as [Hk _].
      rewrite Ht. repeat split.
      * rewrite app_assoc.
        match goal with |- context [retried (?l ++ [?x])] =>
          destruct (retried_call LogRecord l x eq_refl) as [-> _]
        end. rewrite Hk. lia.
      * rewrite app_assoc.
        match goal with |- context [ends_with_delivery (?l ++ [?x])] =>
          destruct (retried_call LogRecord l x eq_refl) as [_ ->]
        end. reflexivity.
      * lia.
      * rewrite Hdate, Hd, Hb, date_after_delivery by reflexivity. apply Hjoin.
    + destruct (retried_deliveries LogRecord (trace st)
                  (logsBatch st ++ logs)%list k He) as [Hk _].
      rewrite Ht. repeat split.
      * match goal with |- context [(?a ++ ?r ++ [Saved; ?q])%list] =>
          replace (a ++ r ++ [Saved; q])%list
            with (((a ++ r) ++ [Saved]) ++ [q])%list
            by (now rewrite <- !app_assoc)
        end.
        match goal with |- context [retried (?l ++ [?x])] =>
          destruct (retried_call LogRecord l x eq_refl) as [-> _]
        end.
        match goal with |- context [retried (?l ++ [?x])] =>
          destruct (retried_call LogRecord l x eq_refl) as [-> _]
        end. rewrite Hk. lia.
      * match goal with |- context [(?a ++ ?r ++ [Saved; ?q])%list] =>
          replace (a ++ r ++ [Saved; q])%list
            with (((a ++ r) ++ [Saved]) ++ [q])%list
            by (now rewrite <- !app_assoc)
        end.
        match goal with |- context [ends_with_delivery (?l ++ [?x])] =>
          destruct (retried_call LogRecord l x eq_refl) as [_ ->]
        end. reflexivity.
      * lia.
      * rewrite Hdate, Hd, Hb, date_after_delivery by reflexivity. apply Hjoin.
  - unfold request, begin. state_fields.
    destruct (next SA _ s) as [s' ev0]. state_fields. cbn.
    repeat split; lia.
Qed.

(** C4, as amended: in a run that waits for an event that makes it deliver
    a batch, when the handler fails each delivery of that batch and each
    reading of the clock in between is within the budget, the batch is
    delivered unchanged once and then once per retry the RUN has left,
    which is [maxRetries] less the retries its calls show for earlier
    batches, so [maxRetries] times when there was none; nothing else
    happens in between, the retries of the whole run then come to
    [maxRetries], and the run settles there. The status, with the error
    that names the range from [previousCheckpoint] to [lastCheckpoint] and
    holds the handler's error, goes to [done] with [lastCheckpoint], and the
    run is rejected: with that error once [done] has made [lastCheckpoint]
    the persisted checkpoint, with the error of [done] otherwise. The
    numbers that the text of the error prints are safe integers. *)
Theorem failing_batch_exhausts_run_retries
  logTypes options storage handler ev (st : State) batch :
  awaits logTypes options storage handler ev st ->
  delivers batchSize ev st batch ->
  is_safe_integer maxRetries = true ->
  safe_numbers (previousCheckpoint SA (stream st)) = true ->
  safe_numbers (lastCheckpoint SA (stream st)) = true ->
  let left := Z.to_nat (maxRetries - Z.of_nat (retried (trace st))) in
  fails_each HA left (Run.handler st) batch ->
  (forall k, (ticks st <= k <= ticks st + left)%nat ->
             hasTimeLeft (clock RT 0) (clock RT k) = true) ->
  exists f err,
    let error :=
      VArr [VStr (skipping maxRetries (previousCheckpoint SA (stream st))
                           (lastCheckpoint SA (stream st)));
            err] in
    let status' := set (status SA (stream st)) "error" error in
    listen ev st = Settled f
    /\ (exists fuel, run logTypes options storage handler fuel = Some f)
    /\ truthy err = true
    /\ effects f =
       (trace st ++ repeat (Delivered batch) (S left)
        ++ [Persisted status' (lastCheckpoint SA (stream st))])%list
    /\ Z.of_nat (retried (effects f)) = Z.max 0 maxRetries
    /\ match Auth0Storage.done storage status'
                               (lastCheckpoint SA (stream st)) with
       | Ok (_, store') =>
           outcome f = Rejected (Value error)
           /\ final_store f = store'
           /\ persisted_checkpoint store' = lastCheckpoint SA (stream st)
       | Throw e =>
           outcome f = Rejected (Exn e) /\ final_store f = storage
       end.
Proof.
  intros Haw Hdel _ _ _ left Hfail Hclock.
  destruct (awaits_facts _ _ _ _ _ _ Haw) as (Hs & Hst & Hr & He & Hm & _).
  assert (Hgo : forall st1 : State,
             logsBatch st1 = batch -> Run.handler st1 = Run.handler st ->
             ticks st1 = ticks st -> start st1 = start st ->
             retries st1 = retries st -> trace st1 = trace st ->
             store st1 = store st -> stream st1 = stream st ->
             exists f err,
               deliver (retry_fuel maxRetries st1) st1 = Concluded f
               /\ truthy err = true
               /\ effects f =
                  (trace st ++ repeat (Delivered batch) (S left)
                   ++ [Persisted
                         (set (status SA (stream st)) "error"
                            (VArr [VStr (skipping maxRetries
                                           (previousCheckpoint SA (stream st))
                                           (lastCheckpoint SA (stream st)));
                                   err]))
                         (lastCheckpoint SA (stream st))])%list
               /\ match Auth0Storage.done storage
                          (set (status SA (stream st)) "error"
                             (VArr [VStr (skipping maxRetries
                                            (previousCheckpoint SA (stream st))
                                            (lastCheckpoint SA (stream st)));
                                    err]))
                          (lastCheckpoint SA (stream st)) with
                  | Ok (_, store') =>
                      outcome f
                      = Rejected
                          (Value
                             (VArr [VStr (skipping maxRetries
                                            (previousCheckpoint SA (stream st))
                                            (lastCheckpoint SA (stream st)));
                                    err]))
                      /\ final_store f = store'
                      /\ persisted_checkpoint store'
                         = lastCheckpoint SA (stream st)
                  | Throw e =>
                      outcome f = Rejected (Exn e) /\ final_store f = storage
                  end).
  { intros st1 Hb Hh Ht Hsta Hre Htr Hsto Hstr.
    assert (Hfuel : retry_fuel maxRetries st1 = left).
    { unfold retry_fuel, left. now rewrite Hre, Hr. }
    destruct (deliver_skips_range batch (retry_fuel maxRetries st1) st1 Hb)
      as (err & st' & Herr & Hd & Hs' & Htr').
    - reflexivity.
    - rewrite Hfuel, Hh. exact Hfail.
    - intros k Hk. rewrite Hsta, Hst. apply Hclock.
      rewrite Hfuel, Ht in Hk. exact Hk.
    - rewrite Hstr in Hd. rewrite Hfuel, Htr in Htr'.
      eexists. exists err. split; [exact Hd|]. split; [exact Herr|]. split.
      + rewrite runFailed_effects, Htr', <- app_assoc. reflexivity.
      + match goal with
        | |- context [Auth0Storage.done storage ?s ?c] =>
            pose proof (runFailed_settles _ _ _
                          (VArr [VStr (skipping maxRetries
                                         (previousCheckpoint SA (stream st))
                                         (lastCheckpoint SA (stream st)));
                                 err])
                          (status SA (stream st))
                          (lastCheckpoint SA (stream st)) st') as Hset
        end.
        rewrite Hs', Hsto, Hs in Hset.
        destruct (Auth0Storage.done storage _ _) as [[s' a]|e] eqn:Hdone.
        * destruct Hset as [Ho Hf]. repeat split; try assumption.
          now apply done_persists_checkpoint in Hdone.
        * exact Hset. }
  assert (Hcount : forall (f : Final LogRecord) tail,
             effects f
             = (trace st ++ repeat (Delivered batch) (S left) ++ [tail])%list ->
             is_delivery tail = false ->
             Z.of_nat (retried (effects f)) = Z.max 0 maxRetries).
  { intros f tail -> Htail. rewrite app_assoc.
    destruct (retried_call LogRecord
                (trace st ++ repeat (Delivered batch) (S left))%list tail Htail)
      as [-> _].
    destruct (retried_deliveries LogRecord (trace st) batch left He) as [-> _].
    unfold left. lia. }
  destruct ev as [logs| |err0]; cbn [delivers] in Hdel.
  - destruct Hdel as [Hb Hfull].
    destruct (Hgo (set_batch (last (map (record_time RT) logs) (lastLogDate st))
                     (logsBatch st ++ logs)%list st))
      as (f & err & Hd & Herr & Heff & Hdone); try reflexivity; auto.
    assert (Hl : listen (Data logs) st = Settled f).
    { apply (proj2 (settled_by_delivery _ _ _ _ batchSize _ _ _ _ Hd)
                   st logs eq_refl).
      state_fields. apply Z.ltb_ge. rewrite <- Hb. exact Hfull. }
    exists f, err. cbv zeta. split; [exact Hl|].
    split; [exact (awaits_settles _ _ _ _ _ _ _ Haw Hl)|].
    split; [exact Herr|]. split; [exact Heff|]. split; [|exact Hdone].
    eapply Hcount; [exact Heff|reflexivity].
  - destruct (Hgo st) as (f & err & Hd & Herr & Heff & Hdone);
      try reflexivity; auto.
    assert (Hl : listen End st = Settled f)
      by apply (proj1 (settled_by_delivery _ _ _ _ batchSize _ _ _ _ Hd)).
    exists f, err. cbv zeta. split; [exact Hl|].
    split; [exact (awaits_settles _ _ _ _ _ _ _ Haw Hl)|].
    split; [exact Herr|]. split; [exact Heff|]. split; [|exact Hdone].
    eapply Hcount; [exact Heff|reflexivity].
  - destruct Hdel.
Qed.

(** C9, as amended: in a run whose stream has ended and whose handler
    accepts the last batch, with a status of at least one record processed,
    the warning is attached exactly when the clock the run then reads is
    604,800,000 ms or more past the date of the last record handed to the
    handler in the run (0 when there was none), a week to the millisecond
    included; the status goes to [done] with the checkpoint, the run
    settles there, and once [done] is fulfilled it resolves with that
    status, its checkpoint set, the checkpoint being the persisted one. *)
Theorem runSuccess_warns_from_a_week
  logTypes options storage handler (st st2 : State) n :
  awaits logTypes options storage handler End st ->
  deliver (retry_fuel maxRetries st) st = Accepted st2 ->
  let s := batchSaved SA (stream st2) in
  get (status SA s) "logsProcessed" = VNum n ->
  0 < n ->
  let last_date :=
    last (map (record_time RT) (delivered_records (trace st2))) 0 in
  let current := clock RT (ticks st2) in
  exists f status_w,
    listen End st = Settled f
    /\ (exists fuel, run logTypes options storage handler fuel = Some f)
    /\ (604800000 <= current - last_date ->
        status_w
        = set (status SA s) "warning" (VStr (outdated RT last_date)))
    /\ (current - last_date < 604800000 -> status_w = status SA s)
    /\ effects f
       = (trace st2 ++ [Saved; Persisted status_w (lastCheckpoint SA s)])%list
    /\ match Auth0Storage.done storage status_w (lastCheckpoint SA s) with
       | Ok (_, store') =>
           outcome f
           = Resolved (set status_w "checkpoint" (lastCheckpoint SA s))
                      (lastCheckpoint SA s)
           /\ final_store f = store'
           /\ persisted_checkpoint store' = lastCheckpoint SA s
       | Throw e =>
           outcome f = Rejected (Exn e) /\ final_store f = storage
       end.
Proof.
  intros Haw Hd s Hn Hpos last_date current.
  destruct (awaits_facts _ _ _ _ _ _ Haw) as (Hs & _ & _ & _ & _ & Hdate).
  pose proof Hd as Hshape. apply deliver_accepted_shape in Hshape.
  destruct Hshape as (k & Ht & _ & _ & _ & Hst & _ & _ & Hll).
  assert (Hlast : lastLogDate st2 = last_date).
  { unfold last_date.
    rewrite Hll, Hdate, Ht, delivered_records_app. apply eq_sym.
    apply (last_redelivered LogRecord). }
  set (st3 := emit Saved (set_stream s st2)).
  destruct (runSuccess_attaches_warning LogRecord SA HA RT
              (status SA s) (lastCheckpoint SA s) st3 n Hn Hpos)
    as (status_w & Hold & Hyoung & Heff & Hdone).
  exists (runSuccess RT (status SA s) (lastCheckpoint SA s) st3), status_w.
  unfold st3 in *. state_fields. rewrite Hlast in *. rewrite Hst, Hs in Hdone.
  assert (Hl : listen End st
               = Settled (runSuccess RT (status SA s) (lastCheckpoint SA s)
                            (emit Saved (set_stream s st2)))).
  { cbn [Run.listen]. unfold Run.on_end. rewrite Hd. reflexivity. }
  split; [exact Hl|].
  split; [exact (awaits_settles _ _ _ _ _ _ _ Haw Hl)|].
  split; [exact Hold|]. split; [exact Hyoung|]. split; [|exact Hdone].
  rewrite Heff, <- app_assoc. reflexivity.
Qed.

End RunInvariants.

(** ** The further theorems at work *)

Section MoreScenarios.
Import Run Scenario.

Lemma done_stays_fulfilled_witness :
  exists status2' self2,
    Auth0Storage.done
      (Auth0Storage.mk 400
         (Some [("checkpointId", VStr "c1"); ("owner", VStr "extension");
                ("logs", VArr [VObj [("logsProcessed", VNum 1)];
                               VObj [("logsProcessed", VNum 2);
                                     ("checkpoint", VStr "c1")]])]))
      [("logsProcessed", VNum 3)] (VStr "c2")
    = Ok (status2', self2)
    /\ well_formed self2.
Proof.
  exact (done_stays_fulfilled one_run [("logsProcessed", VNum 2)] (VStr "c1")
           _ _ eq_refl [("logsProcessed", VNum 3)] (VStr "c2")).
Defined.

Lemma done_frame_witness :
  exists data',
    Auth0Storage.storage
      (Auth0Storage.mk 400
         (Some [("checkpointId", VStr "c1"); ("owner", VStr "extension");
                ("logs", VArr [VObj [("logsProcessed", VNum 1)];
                               VObj [("logsProcessed", VNum 2);
                                     ("checkpoint", VStr "c1")]])]))
    = Some data'
    /\ get data' "owner" = VStr "extension".
Proof.
  destruct (done_frame one_run
              [("checkpointId", VStr "c0"); ("owner", VStr "extension");
               ("logs", VArr [VObj [("logsProcessed", VNum 1)]])]
              [("logsProcessed", VNum 2)] (VStr "c1") _ _ eq_refl eq_refl)
    as (_ & _ & data' & Hs & Hk).
  exists data'. split; [exact Hs|].
  rewrite (Hk "owner"); [reflexivity|discriminate|discriminate].
Defined.

Lemma done_then_getCheckpoint_witness :
  Auth0Storage.getCheckpoint
    (Auth0Storage.mk 400
       (Some [("checkpointId", VStr "c1"); ("owner", VStr "extension");
              ("logs", VArr [VObj [("logsProcessed", VNum 1)];
                             VObj [("logsProcessed", VNum 2);
                                   ("checkpoint", VStr "c1")]])]))
    (VStr "start")
  = Ok (VStr "c1").
Proof.
  exact (proj2 (done_then_getCheckpoint one_run [("logsProcessed", VNum 2)]
                  (VStr "c1") _ _ (VStr "start") eq_refl) eq_refl).
Defined.

Lemma new_passes_other_options_witness :
  get (Lodash.assign
         (Lodash.assign [] [("startFrom", VStr "c9"); ("batchSize", VNum 10)])
         LogsProcessor.defaults)
      "startFrom"
  = VStr "c9".
Proof.
  refine (new_passes_other_options (Some None)
            [("startFrom", VStr "c9"); ("batchSize", VNum 10)]
            _ "startFrom" eq_refl _ _ _ _); try discriminate.
  repeat constructor; cbn; intuition discriminate.
Defined.

Lemma getLogFilter_is_a_set_witness :
  exists types,
    LogsProcessor.getLogFilter
      [("s", VObj [("level", VNum 1)]); ("f", VObj [("level", VNum 3)])]
      [("logTypes", VArr [VStr "s"; VStr "x"; VStr "s"]); ("logLevel", VNum 2)]
    = Ok types
    /\ NoDup types.
Proof.
  destruct (getLogFilter_is_a_set
              [("s", VObj [("level", VNum 1)]); ("f", VObj [("level", VNum 3)])]
              [("logTypes", VArr [VStr "s"; VStr "x"; VStr "s"]);
               ("logLevel", VNum 2)])
    as (types & Hok & Hnd & _).
  - split; [exact I|reflexivity].
  - repeat constructor.
  - exists types. split; [exact Hok|exact Hnd].
Defined.

Lemma getLogFilter_keeps_explicit_order_witness :
  exists added,
    LogsProcessor.getLogFilter
      [("s", VObj [("level", VNum 1)]); ("f", VObj [("level", VNum 3)])]
      [("logTypes", VArr [VStr "s"; VStr "x"]); ("logLevel", VNum 2)]
    = Ok ([VStr "s"; VStr "x"] ++ added)%list.
Proof.
  refine (getLogFilter_keeps_explicit_order
            [("s", VObj [("level", VNum 1)]); ("f", VObj [("level", VNum 3)])]
            [("logTypes", VArr [VStr "s"; VStr "x"]); ("logLevel", VNum 2)]
            _ _ _).
  - split; [exact I|reflexivity].
  - repeat constructor.
  - repeat constructor; cbn; intuition discriminate.
Defined.

Lemma hasTimeLeft_expires_for_good_witness :
  LogsProcessor.hasTimeLeft 20 0 50000 = false.
Proof.
  refine (proj1 (hasTimeLeft_expires_for_good 20 0 30000 50000 eq_refl _)).
  lia.
Defined.

Lemma paged_honours_limit records : honours_limit (paged records).
Proof.
  intros limit s s' logs Hl. cbn.
  destruct (remaining s) as [|r rest]; [discriminate|].
  intros [= _ <-]. rewrite length_firstn. lia.
Qed.

Lemma done_is_the_last_call_witness :
  exists f,
    steady_run = Some f
    /\ exists calls,
        existsb is_persist calls = false
        /\ match outcome f with
           | Resolved s c =>
               if js_gt (get s "logsProcessed") (VNum 0)
               then exists s0, effects f = (calls ++ [Persisted s0 c])%list
               else effects f = calls
           | Rejected r =>
               (exists s c, effects f = (calls ++ [Persisted s c])%list)
               \/ (effects f = []
                   /\ exists x,
                       r = Exn x
                       /\ createStream (paged [r1; r2; r3]) [] fresh_document []
                          = Throw x)
           end.
Proof.
  eexists. split; [vm_compute; reflexivity|].
  apply (done_is_the_last_call Log (paged [r1; r2; r3]) accepting
           (runtime [] 0) 2 5 20 [] [] fresh_document tt 6).
  vm_compute. reflexivity.
Defined.

Lemma resolved_run_is_persisted_witness :
  exists f,
    steady_run = Some f
    /\ exists data kept,
        Auth0Storage.storage (final_store f) = Some data
        /\ get data "logs"
           = VArr (kept ++ [VObj [("logsProcessed", VNum 3);
                                  ("checkpoint", VStr "id3")]])%list
        /\ get data "checkpointId" = VStr "id3".
Proof.
  eexists. split; [vm_compute; reflexivity|].
  eapply (resolved_run_is_persisted Log (paged [r1; r2; r3]) accepting
           (runtime [] 0) 2 5 20 [] [] fresh_document tt 6 _
           [("logsProcessed", VNum 3); ("checkpoint", VStr "id3")]
           (VStr "id3")).
  - vm_compute. reflexivity.
  - reflexivity.
  - reflexivity.
Defined.

Lemma rejected_run_is_recorded_witness :
  exists f r,
    failing_run = Some f
    /\ outcome f = Rejected r
    /\ r = Value (get [("logsProcessed", VNum 0);
                       ("error",
                        VArr [VStr "Skipping logs from null to id2 after 5 retries.";
                              VStr "sink is down"])]
                      "error").
Proof.
  eexists. eexists. split; [vm_compute; reflexivity|].
  split; [reflexivity|].
  refine (proj1 (rejected_run_is_recorded Log (paged [r1; r2; r3]) failing
                   (runtime [] 0) 2 5 20 [] [] fresh_document tt 6 _ _
                   (Requested 2 :: repeat (Delivered [r1; r2]) 6)
                   [("logsProcessed", VNum 0);
                    ("error",
                     VArr [VStr "Skipping logs from null to id2 after 5 retries.";
                           VStr "sink is down"])]
                   (VStr "id2") _ _ _ _ _ _)).
  - vm_compute. reflexivity.
  - reflexivity.
  - reflexivity.
  - vm_compute. reflexivity.
Defined.

Lemma requests_are_within_bounds_witness :
  exists f, steady_run = Some f /\ (1 <= 1 <= 100 /\ 1 <= 2).
Proof.
  eexists. split; [vm_compute; reflexivity|].
  eapply (requests_are_within_bounds Log (paged [r1; r2; r3]) accepting
           (runtime [] 0) 2 5 20 [] [] fresh_document tt 6 _ 1).
  - lia.
  - vm_compute. reflexivity.
  - cbn. auto 10.
Defined.

Lemma batches_are_within_batch_size_witness :
  exists f,
    steady_run = Some f /\ Z.of_nat (List.length [r1; r2]) <= 2.
Proof.
  eexists. split; [vm_compute; reflexivity|].
  eapply (batches_are_within_batch_size Log (paged [r1; r2; r3]) accepting
           (runtime [] 0) 2 5 20 [] [] fresh_document tt 6 _ [r1; r2]).
  - lia.
  - apply paged_honours_limit.
  - vm_compute. reflexivity.
  - cbn. auto 10.
Defined.

Lemma retries_are_within_maxRetries_witness :
  exists f,
    failing_run = Some f
    /\ Z.of_nat (retried (effects f)) <= Z.max 0 5.
Proof.
  eexists. split; [vm_compute; reflexivity|].
  apply (retries_are_within_maxRetries Log (paged [r1; r2; r3]) failing
           (runtime [] 0) 2 5 20 [] [] fresh_document tt 6).
  vm_compute. reflexivity.
Defined.

Lemma no_request_after_done_witness :
  exists f,
    timed_out_run = Some f
    /\ ~ In (Requested 2)
           [Delivered ([] : list Log); Saved;
            Persisted [("logsProcessed", VNum 2)] (VStr "id2")].
Proof.
  eexists. split; [vm_compute; reflexivity|].
  eapply (no_request_after_done Log (paged [r1; r2; r3]) accepting
           (runtime [0; 30000] 30000) 2 5 20 [] [] fresh_document tt 6 _
           [Requested 2; Delivered [r1; r2]]).
  - vm_compute. reflexivity.
  - reflexivity.
Defined.

(** The run whose handler always fails makes its 5 retries and no more. *)
Example failing_run_retries :
  option_map (fun f => retried (effects f)) failing_run = Some 5%nat.
Proof. reflexivity. Qed.

Lemma resolved_run_delivered_last_witness :
  exists f,
    timed_out_run = Some f
    /\ exists before batch k tail,
        effects f
        = (before ++ repeat (Delivered batch) (S k) ++ Saved :: tail)%list
        /\ (tail = [] \/ exists s0, tail = [Persisted s0 (VStr "id2")]).
Proof.
  eexists. split; [vm_compute; reflexivity|].
  eapply (resolved_run_delivered_last Log (paged [r1; r2; r3]) accepting
           (runtime [0; 30000] 30000) 2 5 20 [] [] fresh_document tt 6 _
           [("logsProcessed", VNum 2); ("checkpoint", VStr "id2")]
           (VStr "id2")).
  - vm_compute. reflexivity.
  - reflexivity.
Defined.

Lemma accepted_batch_costs_its_retries_witness :
  exists st',
    deliver (runtime [] 0) 5 20 5 busy_once = Accepted st'
    /\ exists k,
        trace st'
        = (trace busy_once
           ++ repeat (Delivered (logsBatch busy_once)) (S k))%list
        /\ retries st' = retries busy_once + Z.of_nat k
        /\ retries st' <= Z.max (retries busy_once) 5
        /\ logsBatch st' = logsBatch busy_once
        /\ stream st' = stream busy_once /\ store st' = store busy_once.
Proof.
  eexists. split; [vm_compute; reflexivity|].
  eapply (accepted_batch_costs_its_retries Log (scripted []) answering
           (runtime [] 0) 5 20 5 busy_once).
  vm_compute. reflexivity.
Defined.

(** A run that began at a time of today, in milliseconds, has time left a
    day later, with its budget of 20 seconds. *)
Lemma hasTimeLeft_scales_the_start_witness :
  LogsProcessor.hasTimeLeft 20 1700000000000 1700086400000 = true.
Proof.
  apply (hasTimeLeft_scales_the_start 20 1700000000000 1700086400000); lia.
Defined.

Lemma failing_batch_exhausts_run_retries_witness :
  awaits (scripted flaky_pages) flaky (runtime [] 0) 100 5 20 [] []
         fresh_document false End flaky_at_end
  /\ retried (trace flaky_at_end) = 1%nat
  /\ exists f tail,
      listen (runtime [] 0) 100 5 20 End flaky_at_end = Settled f
      /\ effects f
         = (trace flaky_at_end ++ repeat (Delivered [r2]) 5 ++ tail)%list
      /\ Z.of_nat (retried (effects f)) = 5.
Proof.
  assert (Haw : awaits (scripted flaky_pages) flaky (runtime [] 0) 100 5 20
                       [] [] fresh_document false End flaky_at_end).
  { exists (open (scripted flaky_pages) VNull [] []), 2%nat.
    split; vm_compute; reflexivity. }
  split; [exact Haw|]. split; [vm_compute; reflexivity|].
  destruct (failing_batch_exhausts_run_retries Log (scripted flaky_pages)
              flaky (runtime [] 0) 100 5 20 [] [] fresh_document false End
              flaky_at_end [r2] Haw)
    as (f & err & Hl & _ & _ & Heff & Hcount & _).
  - vm_compute. reflexivity.
  - reflexivity.
  - reflexivity.
  - reflexivity.
  - vm_compute. repeat split; reflexivity.
  - intros [|k] _; reflexivity.
  - exists f. eexists. split; [exact Hl|]. split; [exact Heff|exact Hcount].
Defined.

Lemma runSuccess_warns_from_a_week_witness :
  awaits (scripted young_pages) accepting (runtime [] 5000) 100 5 20 [] []
         fresh_document tt End young_at_end
  /\ exists f,
      listen (runtime [] 5000) 100 5 20 End young_at_end = Settled f
      /\ outcome f
         = Resolved [("logsProcessed", VNum 2); ("checkpoint", VStr "id2")]
                    (VStr "id2").
Proof.
  assert (Haw : awaits (scripted young_pages) accepting (runtime [] 5000)
                       100 5 20 [] [] fresh_document tt End young_at_end).
  { exists (open (scripted young_pages) VNull [] []), 2%nat.
    split; vm_compute; reflexivity. }
  split; [exact Haw|].
  destruct (runSuccess_warns_from_a_week Log (scripted young_pages)
              accepting (runtime [] 5000) 100 5 20 [] [] fresh_document tt
              young_at_end young_accepted 2 Haw)
    as (f & status_w & Hl & _ & _ & Hyoung & _ & Hdone).
  - vm_compute. reflexivity.
  - vm_compute. reflexivity.
  - lia.
  - exists f. split; [exact Hl|].
    rewrite Hyoung in Hdone by (vm_compute; reflexivity).
    vm_compute in Hdone. destruct Hdone as [Ho _]. exact Ho.
Defined.

End MoreScenarios.
